(** * GraPen curve manager: approximation selection and curve store

    A shallow embedding of [src/js/curve/CurveManager.js], and of the code
    around it that works on the curve store: [endDrawing] and the eraser of
    [src/js/ui/UIManager.js], the restore loop of
    [src/js/ui/SettingsManager.js] and the export of
    [src/js/io/DesmosIO.js].

    Modelling conventions.
    - A JavaScript number is a [number]: a finite value (the rational that
      the double stands for), [+Infinity], [-Infinity] or [NaN].  A sum, a
      difference or a quotient whose value is kept is rounded to the nearest
      double, or overflows, as IEEE 754 has it ([Num.round]); a difference
      that a compare function returns is used for its sign only and is
      taken exactly.  A field that may be [undefined], [null] or of another
      type is an [option].
    - Curve ids are array indices, hence [nat].
    - [this.curves] is a [list (option Curve)]: [None] is a slot that tests
      falsy ([null], [undefined] or a hole of the sparse array).  Every
      curve object is created fresh by the operation that stores it, so no
      object sits in two slots and a slot can be modelled by its value.
    - The approximators ([../approximator/*]) are external modules.  What
      they returned for a call is an input of the model.
    - Calls to the history manager and to the custom-knot approximator are
      appended to [cm_log]; a history call also records the curve array as
      it is at the moment [addAction] is entered.
    - [curve.path] is a D3 selection or [null], and the store keeps which
      of the two it is.  The methods of a selection, the SVG group [this.g],
      the DOM and the graph calculator belong to the rendering side: their
      calls are assumed to return normally and are not represented, but for
      what building the list of curves writes to a curve ([listCurve]).  A
      method called on a path that is [null] is a [TypeError]; the
      operations that can meet one are given with the way they end
      ([Completion]).  [this.graphCalculator] is nullable in the source and
      is kept as an [option]. *)

From Stdlib Require Import ZArith QArith Qabs Lia Lqa OrdersEx Permutation Sorted Ascii.
From stdpp Require Import base tactics option list strings pretty gmap.

Local Open Scope Z_scope.

(** ** JavaScript numbers *)

Module Num.

Inductive number : Type :=
| Fin (q : Q)
| PosInf
| NegInf
| NaN.

(** [Number.isFinite(v)] for a value that may not be a number at all. *)
Definition isFinite (v : option number) : bool :=
  match v with
  | Some (Fin _) => true
  | _ => false
  end.

(** [Math.abs]. *)
Definition abs (x : number) : number :=
  match x with
  | Fin q => Fin (Qabs q)
  | PosInf | NegInf => PosInf
  | NaN => NaN
  end.

(** [x - y] where the code uses the sign of the result only (in compare
    functions): the exact difference, whose sign is that of the rounded
    one when [x] and [y] are doubles. *)
Definition sub (x y : number) : number :=
  match x, y with
  | NaN, _ | _, NaN => NaN
  | Fin a, Fin b => Fin (a - b)
  | Fin _, PosInf => NegInf
  | Fin _, NegInf => PosInf
  | PosInf, PosInf => NaN
  | PosInf, _ => PosInf
  | NegInf, NegInf => NaN
  | NegInf, _ => NegInf
  end.

Definition neg (x : number) : number :=
  match x with
  | Fin q => Fin (- q)
  | PosInf => NegInf
  | NegInf => PosInf
  | NaN => NaN
  end.

(** The binary exponent of the positive rational [n / d]: the [e] with
    [2^e <= n / d < 2^(e + 1)]. *)
Definition exponent (n d : positive) : Z :=
  let e0 := Z.log2 (Zpos n) - Z.log2 (Zpos d) in
  let below :=
    if 0 <=? e0 then Zpos n <? 2 ^ e0 * Zpos d else Zpos n * 2 ^ (- e0) <? Zpos d in
  if below then e0 - 1 else e0.

(** The integer nearest to [num / den], ties going to the even one. *)
Definition nearestEven (num den : Z) : Z :=
  let fl := num / den in
  match 2 * (num mod den) ?= den with
  | Lt => fl
  | Eq => if Z.even fl then fl else fl + 1
  | Gt => fl + 1
  end.

(** The double (IEEE 754 binary64) nearest to the positive rational
    [n / d], ties going to the even significand; [+Infinity] from
    [2^1024 - 2^970] on.  [ex] is the exponent of the last place of the
    result, [-1074] for subnormals. *)
Definition roundPos (n d : positive) : number :=
  let ex := Z.max (exponent n d - 52) (-1074) in
  if 0 <=? ex
  then
    let m := nearestEven (Zpos n) (Zpos d * 2 ^ ex) in
    if 2 ^ 1024 <=? m * 2 ^ ex then PosInf else Fin (inject_Z (m * 2 ^ ex))
  else
    let m := nearestEven (Zpos n * 2 ^ (- ex)) (Zpos d) in
    Fin (Qred (m # Z.to_pos (2 ^ (- ex)))).

(** The result of an arithmetic operation whose exact value is [q]. *)
Definition round (q : Q) : number :=
  match Qnum q with
  | 0 => Fin 0
  | Zpos n => roundPos n (Qden q)
  | Zneg n => neg (roundPos n (Qden q))
  end.

(** [x + y] as a value. *)
Definition fadd (x y : number) : number :=
  match x, y with
  | NaN, _ | _, NaN => NaN
  | Fin a, Fin b => round (a + b)
  | PosInf, NegInf | NegInf, PosInf => NaN
  | PosInf, _ | _, PosInf => PosInf
  | NegInf, _ | _, NegInf => NegInf
  end.

(** [x - y] as a value. *)
Definition fsub (x y : number) : number := fadd x (neg y).

(** [x / count] for the length of an array. *)
Definition fdiv (x : number) (count : nat) : number :=
  match count, x with
  | _, NaN => NaN
  | O, Fin a =>
      match Qnum a with
      | 0 => NaN
      | Zpos _ => PosInf
      | Zneg _ => NegInf
      end
  | S _, Fin a => round (a / inject_Z (Z.of_nat count))
  | _, PosInf => PosInf
  | _, NegInf => NegInf
  end.

(** [Math.max(0, x)]. *)
Definition max0 (x : number) : number :=
  match x with
  | Fin q => if Qle_bool q 0 then Fin 0 else Fin q
  | PosInf => PosInf
  | NegInf => Fin 0
  | NaN => NaN
  end.

(** [x !== y] on numbers. *)
Definition strictNe (x y : number) : bool :=
  match x, y with
  | Fin a, Fin b => negb (Qeq_bool a b)
  | PosInf, PosInf => false
  | NegInf, NegInf => false
  | _, _ => true
  end.


Definition ofZ (z : Z) : number := Fin (inject_Z z).

End Num.

Export Num(number, Fin, PosInf, NegInf, NaN).

(** ** [Array.prototype.sort] with a compare function

    The sort is stable; the sign of the number returned by the compare
    function decides, and a [NaN] answer counts as zero. *)

Module JsArray.

Definition sortCompare {A : Type} (comparefn : A → A → number) (x y : A) : comparison :=
  match comparefn x y with
  | Fin q => (q ?= 0)%Q
  | PosInf => Gt
  | NegInf => Lt
  | NaN => Eq
  end.

Fixpoint insertSorted {A : Type} (comparefn : A → A → number) (x : A) (l : list A) : list A :=
  match l with
  | [] => [x]
  | y :: l' =>
      match sortCompare comparefn x y with
      | Lt => x :: y :: l'
      | _ => y :: insertSorted comparefn x l'
      end
  end.

Definition sort {A : Type} (comparefn : A → A → number) (l : list A) : list A :=
  foldl (λ acc x, insertSorted comparefn x acc) [] l.

(** [arr.splice(start, 1)]. *)
Definition spliceOut {A : Type} (start : nat) (l : list A) : list A :=
  take start l ++ drop (S start) l.

(** [arr.splice(start, 0, x)]. *)
Definition spliceIn {A : Type} (start : nat) (x : A) (l : list A) : list A :=
  take start l ++ x :: drop start l.

(** [arr[i] = x], which extends the array with holes when [i] is past the
    end. *)
Definition assign {A : Type} (i : nat) (x : A) (l : list (option A)) : list (option A) :=
  if decide (i < length l)%nat
  then <[i := Some x]> l
  else l ++ replicate (i - length l)%nat None ++ [Some x].

(** [arr[i]] read through a truthiness test. *)
Definition slot {A : Type} (l : list (option A)) (i : nat) : option A :=
  mjoin (l !! i).

End JsArray.

Export JsArray.

(** ** Approximation results and attempts *)

Definition Point : Type := (Q * Q)%type.

Record PreKnot : Type := mkPreKnot {
  pk_knot : Q;
  pk_priority : Z
}.

Record Segment : Type := mkSegment {
  seg_rmsError : option number
}.

Record AttemptDiagnostic : Type := mkAttemptDiagnostic {
  ad_label : string;
  ad_type : option string;
  ad_success : bool;
  ad_priority : Z;
  ad_error : option number
}.

Record Diagnostics : Type := mkDiagnostics {
  dg_rmsError : option number;
  dg_selectedApproximator : option string;
  dg_approximatorPriority : option Z;
  dg_alternatives : option (list AttemptDiagnostic)
}.

Record Approximation : Type := mkApproximation {
  ap_success : bool;
  ap_type : option string;
  ap_diagnostics : option Diagnostics;
  ap_averageLinearity : option number;
  ap_segments : option (list (option Segment));
  ap_svgPath : string;
  ap_latexEquations : option (list string);
  ap_knots : option (list Point);
  ap_preKnots : option (list PreKnot);
  ap_exportData : option string
}.

Record Attempt : Type := mkAttempt {
  at_label : string;
  at_approximation : option Approximation;
  at_priority : Z;
  at_error : number
}.

(** ** The selector of [addHandDrawnCurve] *)

Module Selector.

(** [l.reduce((sum, val) => sum + val, 0) / l.length]. *)
Definition mean (l : list Q) : number :=
  Num.fdiv (foldl (λ sum val, Num.fadd sum (Fin val)) (Fin 0) l) (length l).

Definition segmentErrors (segs : list (option Segment)) : list Q :=
  omap (λ seg : option Segment,
          match seg with
          | Some s =>
              match seg_rmsError s with
              | Some (Fin r) => Some (Qabs r)
              | _ => None
              end
          | None => None
          end) segs.

Definition diagnosticsRms (a : Approximation) : option number :=
  d ← ap_diagnostics a; dg_rmsError d.

Definition getErrorScore (approximation : option Approximation) : number :=
  match approximation with
  | None => PosInf
  | Some a =>
      if negb (ap_success a) then PosInf
      else if Num.isFinite (diagnosticsRms a)
      then match diagnosticsRms a with Some r => Num.abs r | None => PosInf end
      else match ap_averageLinearity a with
           | Some v => Num.max0 (Num.fsub (Fin 1) v)
           | None =>
               match ap_segments a with
               | Some segs =>
                   match segmentErrors segs with
                   | [] => PosInf
                   | errs => mean errs
                   end
               | None => PosInf
               end
           end
  end.

Definition registerAttempt (attempts : list Attempt) (label : string)
    (approximation : option Approximation) (priority : Z) : list Attempt :=
  attempts ++ [mkAttempt label approximation priority (getErrorScore approximation)].

Definition succeeded (entry : Attempt) : bool :=
  match at_approximation entry with
  | Some a => ap_success a
  | None => false
  end.

(** [String.prototype.localeCompare], taken as the code-unit lexicographic
    order, which the collation of the host need not follow.  Between the
    attempts that [addHandDrawnCurve] registers no two labels are ever
    compared, their priorities being pairwise distinct. *)
Definition localeCompare (a b : string) : Z :=
  match String_as_OT.compare a b with
  | Lt => -1
  | Eq => 0
  | Gt => 1
  end.

Definition rankingError (e : number) : number :=
  if Num.isFinite (Some e) then e else PosInf.

Definition compareAttempts (a b : Attempt) : number :=
  if negb (at_priority a =? at_priority b)
  then Num.ofZ (at_priority a - at_priority b)
  else
    let errorA := rankingError (at_error a) in
    let errorB := rankingError (at_error b) in
    if Num.strictNe errorA errorB
    then Num.sub errorA errorB
    else Num.ofZ (localeCompare (at_label a) (at_label b)).

Definition successfulAttempts (attempts : list Attempt) : list Attempt :=
  sort compareAttempts (filter (λ entry, succeeded entry = true) attempts).

Definition bestAttempt (attempts : list Attempt) : option Attempt :=
  head (successfulAttempts attempts).

Definition attemptDiagnostics (attempts : list Attempt) : list AttemptDiagnostic :=
  (λ entry,
     {| ad_label := at_label entry;
        ad_type := a ← at_approximation entry; ap_type a;
        ad_success := succeeded entry;
        ad_priority := at_priority entry;
        ad_error := if Num.isFinite (Some (at_error entry))
                    then Some (at_error entry) else None |}) <$> attempts.

End Selector.

(** ** Curves and the state of the manager *)

Record GraphCurve : Type := mkGraphCurve {
  gc_id : string
}.

Record Domain : Type := mkDomain {
  xMin : Q; xMax : Q; yMin : Q; yMax : Q
}.

Record GraphCalculator : Type := mkGraphCalculator {
  getDomain : Domain
}.

(** A D3 selection, as [curve.path] holds one.  What it draws belongs to
    the rendering side; the store only tells a selection from [null]. *)
Inductive Selection : Type :=
| selection.

(** [_pendingSizeHistory] and [_pendingColorHistory] are the two fields that
    [updateCurveSize] and [updateCurveColor] add to a curve; [None] is a
    field that is absent or [undefined]. *)
Record Curve : Type := mkCurve {
  c_id : nat;
  c_type : option string;
  c_path : option Selection;
  c_color : option string;
  c_size : option number;
  c_locked : bool;
  c_isHidden : bool;
  c_isDetailShown : bool;
  c_showKnots : option bool;
  c_graphCurve : option GraphCurve;
  c_latexEquations : list string;
  c_preKnots : list PreKnot;
  c_knotCount : Z;
  c_originalPoints : option (list Point);
  c_minKnots : Z;
  c_maxKnots : Z;
  c_knotPoints : option (list Point);
  c_approximationType : option string;
  c_approximationData : option string;
  c_approximationDiagnostics : option Diagnostics;
  c_selectedApproximator : option string;
  c_approximatorPriority : option Z;
  c_pendingSizeHistory : option number;
  c_pendingColorHistory : option string
}.

(** The fields of [this.settings] that the operations below read or
    write.  [setApproximatorSettings] also copies [showKnotsDefault] and
    [snap] from the resolved approximator settings into [this.settings];
    these two fields are read by none of the operations below and are not
    represented, so an equation between two [Settings] speaks of the six
    fields here only. *)
Record Settings : Type := mkSettings {
  nextCurveId : nat;
  selectCurveId : option nat;
  currentColor : option string;
  currentSize : option number;
  prevColor : option string;
  prevSize : option number
}.

(** The fields of the resolved approximator settings that the manager
    reads. *)
Record ApproxSettings : Type := mkApproxSettings {
  as_color : option string;
  as_size : option number;
  as_showKnotsDefault : option bool;
  as_maxKnots : option Z
}.

(** Action records handed to [historyManager.addAction].  A record that
    holds a curve holds the object itself in the source; the value at the
    time of the call is kept here. *)
Inductive Action : Type :=
| ActAdd (curve : option Curve)
| ActDelete (curve : Curve) (index : nat) (nextId : nat)
| ActReorder (fromId toId : nat)
| ActToggleVisibility (id : nat) (oldHidden newHidden : bool)
| ActToggleDetails (id : nat) (oldDetailShown newDetailShown : bool)
| ActStyleChange (id : nat) (oldColor : option string) (oldSize : option number)
    (newColor : option string) (newSize : option number)
| ActSize (id : nat) (oldSize newSize : number)
| ActColor (id : nat) (oldColor newColor : option string)
| ActKnotCountChanged (id : nat) (oldValue newValue : Z)
| ActClear (curves : list (option Curve)).

Inductive Event : Type :=
| AddAction (action : Action) (seen : list (option Curve))
| ApproximateWithCustomKnots (points : list Point) (customKnots : list PreKnot)
    (domain : Domain).

Record CurveManager : Type := mkCurveManager {
  cm_curves : list (option Curve);
  cm_settings : Settings;
  cm_graphCalculator : option GraphCalculator;
  cm_approximatorSettings : ApproxSettings;
  cm_log : list Event
}.

(** Input of [addCurve]. *)
Record Descriptor : Type := mkDescriptor {
  d_id : nat;
  d_type : option string;
  d_path : option Selection;
  d_color : option string;
  d_size : option number;
  d_locked : option bool;
  d_graphCurve : option GraphCurve;
  d_latexEquations : option (list string);
  d_preKnots : option (list PreKnot);
  d_originalPoints : option (list Point);
  d_minKnots : option Z;
  d_maxKnots : option Z;
  d_approximationType : option string;
  d_approximationData : option string;
  d_approximationDiagnostics : option Diagnostics;
  d_selectedApproximator : option string;
  d_approximatorPriority : option Z
}.

(** Input of [addHandDrawnCurve]. *)
Record HandDrawnDescriptor : Type := mkHandDrawnDescriptor {
  hd_id : nat;
  hd_domainPath : list Point;
  hd_color : option string;
  hd_size : option number;
  hd_useAdvancedMode : bool;
  hd_approximatorSettings : option ApproxSettings
}.

(** What the collaborators answered during one [addHandDrawnCurve]: the
    six [approximate] results in call order ([None] is [null], also used
    when an approximator is not installed), the settings resolved by
    [setApproximatorSettings], and the handle returned by
    [graphCalculator.addCurve]. *)
Record StrokeFits : Type := mkStrokeFits {
  sf_piecewiseResult : option Approximation;
  sf_linearResult : option Approximation;
  sf_singleQuadraticResult : option Approximation;
  sf_singleCircleResult : option Approximation;
  sf_quadraticBSplineResult : option Approximation;
  sf_selectiveResult : option Approximation;
  sf_resolvedSettings : ApproxSettings;
  sf_graphCurve : GraphCurve
}.

(** Answer of [quadraticApproximator.approximateWithCustomKnots]. *)
Record KnotFit : Type := mkKnotFit {
  kf_success : bool;
  kf_svgPath : string;
  kf_knots : list Point;
  kf_latexEquations : list string
}.

Inductive Message : Type :=
| MsgNone
| MsgApproximatedAs (name : option string)
| MsgAdvancedAdded
| MsgAdvancedFailed
| MsgApproximationFailed.

Record HandDrawnResult : Type := mkHandDrawnResult {
  r_success : bool;
  r_message : Message;
  r_curve : option GraphCurve;
  r_diagnostics : option Diagnostics
}.

(** ** Field updates *)

Module Upd.

Definition setId (c : Curve) (index : nat) : Curve :=
  mkCurve index (c_type c) (c_path c) (c_color c) (c_size c) (c_locked c) (c_isHidden c)
    (c_isDetailShown c) (c_showKnots c) (c_graphCurve c) (c_latexEquations c)
    (c_preKnots c) (c_knotCount c) (c_originalPoints c) (c_minKnots c) (c_maxKnots c)
    (c_knotPoints c) (c_approximationType c) (c_approximationData c)
    (c_approximationDiagnostics c) (c_selectedApproximator c) (c_approximatorPriority c)
    (c_pendingSizeHistory c) (c_pendingColorHistory c).

Definition setIsHidden (c : Curve) (hidden : bool) : Curve :=
  mkCurve (c_id c) (c_type c) (c_path c) (c_color c) (c_size c) (c_locked c) hidden
    (c_isDetailShown c) (c_showKnots c) (c_graphCurve c) (c_latexEquations c)
    (c_preKnots c) (c_knotCount c) (c_originalPoints c) (c_minKnots c) (c_maxKnots c)
    (c_knotPoints c) (c_approximationType c) (c_approximationData c)
    (c_approximationDiagnostics c) (c_selectedApproximator c) (c_approximatorPriority c)
    (c_pendingSizeHistory c) (c_pendingColorHistory c).

Definition setIsDetailShown (c : Curve) (shown : bool) : Curve :=
  mkCurve (c_id c) (c_type c) (c_path c) (c_color c) (c_size c) (c_locked c) (c_isHidden c)
    shown (c_showKnots c) (c_graphCurve c) (c_latexEquations c)
    (c_preKnots c) (c_knotCount c) (c_originalPoints c) (c_minKnots c) (c_maxKnots c)
    (c_knotPoints c) (c_approximationType c) (c_approximationData c)
    (c_approximationDiagnostics c) (c_selectedApproximator c) (c_approximatorPriority c)
    (c_pendingSizeHistory c) (c_pendingColorHistory c).

Definition setColor (c : Curve) (color : option string) : Curve :=
  mkCurve (c_id c) (c_type c) (c_path c) color (c_size c) (c_locked c) (c_isHidden c)
    (c_isDetailShown c) (c_showKnots c) (c_graphCurve c) (c_latexEquations c)
    (c_preKnots c) (c_knotCount c) (c_originalPoints c) (c_minKnots c) (c_maxKnots c)
    (c_knotPoints c) (c_approximationType c) (c_approximationData c)
    (c_approximationDiagnostics c) (c_selectedApproximator c) (c_approximatorPriority c)
    (c_pendingSizeHistory c) (c_pendingColorHistory c).

Definition setSize (c : Curve) (size : option number) : Curve :=
  mkCurve (c_id c) (c_type c) (c_path c) (c_color c) size (c_locked c) (c_isHidden c)
    (c_isDetailShown c) (c_showKnots c) (c_graphCurve c) (c_latexEquations c)
    (c_preKnots c) (c_knotCount c) (c_originalPoints c) (c_minKnots c) (c_maxKnots c)
    (c_knotPoints c) (c_approximationType c) (c_approximationData c)
    (c_approximationDiagnostics c) (c_selectedApproximator c) (c_approximatorPriority c)
    (c_pendingSizeHistory c) (c_pendingColorHistory c).



Definition setKnotCountField (c : Curve) (knotCount : Z) : Curve :=
  mkCurve (c_id c) (c_type c) (c_path c) (c_color c) (c_size c) (c_locked c) (c_isHidden c)
    (c_isDetailShown c) (c_showKnots c) (c_graphCurve c) (c_latexEquations c)
    (c_preKnots c) knotCount (c_originalPoints c) (c_minKnots c) (c_maxKnots c)
    (c_knotPoints c) (c_approximationType c) (c_approximationData c)
    (c_approximationDiagnostics c) (c_selectedApproximator c) (c_approximatorPriority c)
    (c_pendingSizeHistory c) (c_pendingColorHistory c).

(** The three assignments of [setKnotCount]. *)
Definition setKnotFit (c : Curve) (latexEquations : list string)
    (knotPoints : list Point) (knotCount : Z) : Curve :=
  mkCurve (c_id c) (c_type c) (c_path c) (c_color c) (c_size c) (c_locked c) (c_isHidden c)
    (c_isDetailShown c) (c_showKnots c) (c_graphCurve c) latexEquations
    (c_preKnots c) knotCount (c_originalPoints c) (c_minKnots c) (c_maxKnots c)
    (Some knotPoints) (c_approximationType c) (c_approximationData c)
    (c_approximationDiagnostics c) (c_selectedApproximator c) (c_approximatorPriority c)
    (c_pendingSizeHistory c) (c_pendingColorHistory c).

(** The assignments that close the success branch of [addHandDrawnCurve]. *)
Definition setFitData (c : Curve) (knotPoints : list Point) (originalPoints : list Point)
    (label : string) (priority : Z) (diagnostics : option Diagnostics)
    (approximationType : option string) (approximationData : option string) : Curve :=
  mkCurve (c_id c) (c_type c) (c_path c) (c_color c) (c_size c) (c_locked c) (c_isHidden c)
    (c_isDetailShown c) (c_showKnots c) (c_graphCurve c) (c_latexEquations c)
    (c_preKnots c) (c_knotCount c) (Some originalPoints) (c_minKnots c) (c_maxKnots c)
    (Some knotPoints) approximationType approximationData
    diagnostics (Some label) (Some priority)
    (c_pendingSizeHistory c) (c_pendingColorHistory c).

Definition withCurves (cm : CurveManager) (curves : list (option Curve)) : CurveManager :=
  mkCurveManager curves (cm_settings cm) (cm_graphCalculator cm)
    (cm_approximatorSettings cm) (cm_log cm).

Definition withSettings (cm : CurveManager) (settings : Settings) : CurveManager :=
  mkCurveManager (cm_curves cm) settings (cm_graphCalculator cm)
    (cm_approximatorSettings cm) (cm_log cm).

Definition withApproximatorSettings (cm : CurveManager) (s : ApproxSettings) : CurveManager :=
  mkCurveManager (cm_curves cm) (cm_settings cm) (cm_graphCalculator cm) s (cm_log cm).

Definition logged (cm : CurveManager) (e : Event) : CurveManager :=
  mkCurveManager (cm_curves cm) (cm_settings cm) (cm_graphCalculator cm)
    (cm_approximatorSettings cm) (cm_log cm ++ [e]).

Definition setNextCurveId (s : Settings) (n : nat) : Settings :=
  mkSettings n (selectCurveId s) (currentColor s) (currentSize s) (prevColor s) (prevSize s).



(** Write through the reference held in slot [i]. *)
Definition modifySlot (cm : CurveManager) (i : nat) (f : Curve → Curve) : CurveManager :=
  withCurves cm (alter (fmap f) i (cm_curves cm)).

End Upd.

Export Upd.

(** ** Truthiness and strict equality of the dynamic values *)

Module Dyn.

(** [s || t] on strings that may be [undefined]: the empty string is falsy. *)
Definition orStr (s t : option string) : option string :=
  match s with
  | Some v => if bool_decide (v = EmptyString) then t else s
  | None => t
  end.

(** [x || y] on numbers that may be [undefined]: zero and [NaN] are falsy. *)
Definition orNum (x y : option number) : option number :=
  match x with
  | Some (Fin q) => if Qeq_bool q 0 then y else x
  | Some NaN | None => y
  | Some _ => x
  end.

(** [n || k] on an integer count that may be [undefined]. *)
Definition orCount (n : option Z) (k : Z) : Z :=
  match n with
  | Some v => if v =? 0 then k else v
  | None => k
  end.

Definition eqStr (a b : option string) : bool := bool_decide (a = b).


Definition eqNum (a b : option number) : bool :=
  match a, b with
  | Some x, Some y => negb (Num.strictNe x y)
  | None, None => true
  | _, _ => false
  end.

End Dyn.

(** ** The operations of [CurveManager] *)

(** [this.historyManager.addAction(action)]: the record is appended to the
    log together with the curve array the history manager can observe at
    that moment. *)
Definition addAction (action : Action) (cm : CurveManager) : CurveManager :=
  logged cm (AddAction action (cm_curves cm)).

(** [this.curves.forEach((curve, index) => { if (curve) curve.id = index })]. *)
Definition renumber (curves : list (option Curve)) : list (option Curve) :=
  imap (λ index, fmap (λ curve, setId curve index)) curves.

(** What listing a curve does to the curve.  [addCurveToList] builds the
    list item; for a curve of type 'quadratic' it calls
    [createKnotCountSlider], which returns at once for a curve without graph
    curve and otherwise ends with [curve.knotCount = currentKnotCount], where
    [currentKnotCount] is
    [curve.knotCount || curve.latexEquations.length + 1 || ...]: a count of 0
    is replaced by the number of equations plus one, and that is never 0. *)
Definition listCurve (curve : Curve) : Curve :=
  if bool_decide (c_type curve = Some "quadratic"%string)
  then
    match c_graphCurve curve with
    | Some _ =>
        let currentKnotCount :=
          if c_knotCount curve =? 0
          then Z.of_nat (length (c_latexEquations curve)) + 1
          else c_knotCount curve in
        setKnotCountField curve currentKnotCount
    | None => curve
    end
  else curve.

(** [addCurveToList(id, ...)], as far as the store goes: nothing when
    [this.curves[id]] is not a curve. *)
Definition addCurveToList (cm : CurveManager) (id : nat) : CurveManager :=
  modifySlot cm id listCurve.

(** The loop of [updateCurveList]:
    [this.curves.forEach((curve, index) => { if (curve) this.addCurveToList(index, ...) })],
    each call writing to the curve at its index only. *)
Definition relist (curves : list (option Curve)) : list (option Curve) :=
  (λ entry : option Curve, listCurve <$> entry) <$> curves.

(** [updateCurveList()]: the list is emptied and built again. *)
Definition updateCurveList (cm : CurveManager) : CurveManager :=
  withCurves cm (relist (cm_curves cm)).

(** [addCurve(descriptor)].  The descriptor is an object by its type, so the
    early return on a non-object is not represented. *)
Definition addCurve (cm : CurveManager) (descriptor : Descriptor) : CurveManager :=
  let curve :=
    {| c_id := d_id descriptor;
       c_type := d_type descriptor;
       c_path := d_path descriptor;
       c_color := d_color descriptor;
       c_size := d_size descriptor;
       c_locked := default false (d_locked descriptor);
       c_isHidden := false;
       c_isDetailShown := true;
       c_showKnots := None;
       c_graphCurve := d_graphCurve descriptor;
       c_latexEquations := default [] (d_latexEquations descriptor);
       c_preKnots := default [] (d_preKnots descriptor);
       c_knotCount :=
         match d_latexEquations descriptor with
         | Some eqs => Z.of_nat (length eqs) + 1
         | None => 0
         end;
       c_originalPoints := d_originalPoints descriptor;
       c_minKnots := Dyn.orCount (d_minKnots descriptor) 2;
       c_maxKnots := Dyn.orCount (d_maxKnots descriptor) 10;
       c_knotPoints := None;
       c_approximationType :=
         Dyn.orStr (d_approximationType descriptor) (Dyn.orStr (d_type descriptor) None);
       c_approximationData := d_approximationData descriptor;
       c_approximationDiagnostics := d_approximationDiagnostics descriptor;
       c_selectedApproximator := Dyn.orStr (d_selectedApproximator descriptor) None;
       c_approximatorPriority := d_approximatorPriority descriptor;
       c_pendingSizeHistory := None;
       c_pendingColorHistory := None |} in
  let targetId := d_id descriptor in
  let curves :=
    match slot (cm_curves cm) targetId with
    | Some _ => <[targetId := Some curve]> (cm_curves cm)
    | None => cm_curves cm ++ [Some curve]
    end in
  let cm := withCurves cm curves in
  let cm := addCurveToList cm targetId in
  addAction (ActAdd (slot (cm_curves cm) targetId)) cm.

(** [setCurveVisibility(id, visible)], without its calls to the graph
    calculator and the DOM. *)
Definition setCurveVisibility (cm : CurveManager) (id : nat) (visible : bool) : CurveManager :=
  match slot (cm_curves cm) id with
  | None => cm
  | Some _ => modifySlot cm id (λ curve, setIsHidden curve (negb visible))
  end.

Definition toggleCurveVisibility (cm : CurveManager) (curveId : nat) : CurveManager :=
  match slot (cm_curves cm) curveId with
  | None => cm
  | Some curve =>
      let isHidden := c_isHidden curve || false in
      let newHiddenState := negb isHidden in
      let cm := addAction (ActToggleVisibility curveId isHidden newHiddenState) cm in
      setCurveVisibility cm curveId (negb newHiddenState)
  end.

Definition setCurveDetailState (cm : CurveManager) (id : nat) (detailShown : bool)
    : CurveManager :=
  if bool_decide (id < length (cm_curves cm))%nat && bool_decide (is_Some (slot (cm_curves cm) id))
  then modifySlot cm id (λ curve, setIsDetailShown curve detailShown)
  else cm.

Definition toggleDetailVisibility (cm : CurveManager) (id : nat) : CurveManager :=
  match slot (cm_curves cm) id with
  | None => cm
  | Some curve =>
      let isDetailShown := c_isDetailShown curve in
      let newDetailState := negb isDetailShown in
      let cm := addAction (ActToggleDetails id isDetailShown newDetailState) cm in
      setCurveDetailState cm id newDetailState
  end.

(** [deselectCurve()], as far as [this.settings] goes. *)
Definition deselectCurve (cm : CurveManager) : CurveManager :=
  let s := cm_settings cm in
  withSettings cm
    (mkSettings (nextCurveId s) None (prevColor s) (prevSize s) (prevColor s) (prevSize s)).

(** [deleteCurve(event)], with [id] the integer parsed from the event, for
    a call that runs to its end.  After the push the source removes the
    drawn path and the graph curve, then splices, renumbers, sets the
    counter, rebuilds the list, redraws and deselects.  The call ends early,
    in a [TypeError], when the curve or one that remains has no path:
    [Call.deleteCurve] below gives the state and the way the call ends in
    every case. *)
Definition deleteCurve (cm : CurveManager) (id : nat) : CurveManager :=
  match slot (cm_curves cm) id with
  | None => cm
  | Some curve =>
      let cm := addAction (ActDelete curve id (nextCurveId (cm_settings cm))) cm in
      let cm := withCurves cm (spliceOut id (cm_curves cm)) in
      let cm := withCurves cm (renumber (cm_curves cm)) in
      let cm := withSettings cm (setNextCurveId (cm_settings cm) (length (cm_curves cm))) in
      let cm := updateCurveList cm in
      deselectCurve cm
  end.

Definition clearCanvas (cm : CurveManager) : CurveManager :=
  let cm := addAction (ActClear (cm_curves cm)) cm in
  let cm := withCurves cm [] in
  withSettings cm (setNextCurveId (cm_settings cm) 0).

(** [reorderCurves(fromId, toId)], for a call that runs to its end.  There
    is no test on [curve]: what was read from [this.curves[fromId]] is
    spliced back in, be it a curve or not.  The call ends early, in a
    [TypeError], when a curve has no path: see [Call.reorderCurves]. *)
Definition reorderCurves (cm : CurveManager) (fromId toId : nat) : CurveManager :=
  let curve := slot (cm_curves cm) fromId in
  let cm := withCurves cm (spliceOut fromId (cm_curves cm)) in
  let cm := withCurves cm (spliceIn toId curve (cm_curves cm)) in
  let cm := withCurves cm (renumber (cm_curves cm)) in
  let cm := updateCurveList cm in
  addAction (ActReorder fromId toId) cm.

(** [recordStyleChange(newColor, newSize)] on the selected curve, for a
    call that runs to its end; see [Call.recordStyleChange] for a curve
    without path. *)
Definition recordStyleChange (cm : CurveManager) (newColor : option string)
    (newSize : option number) : CurveManager :=
  match selectCurveId (cm_settings cm) with
  | None => cm
  | Some id =>
      match slot (cm_curves cm) id with
      | None => cm
      | Some curve =>
          let oldColor := c_color curve in
          let oldSize := c_size curve in
          if Dyn.eqStr oldColor newColor && Dyn.eqNum oldSize newSize then cm
          else
            let cm := addAction (ActStyleChange id oldColor oldSize newColor newSize) cm in
            let cm :=
              if negb (Dyn.eqStr oldColor newColor)
              then modifySlot cm id (λ curve, setColor curve newColor)
              else cm in
            if negb (Dyn.eqNum oldSize newSize)
            then modifySlot cm id (λ curve, setSize curve newSize)
            else cm
      end
  end.

(** ** Calls that can end in a [TypeError]

    [deleteCurve], [redrawCurves] (called by [deleteCurve] and
    [reorderCurves]) and the style operations call a method of
    [curve.path].  When that field is [null], as in the placeholder of
    [addHandDrawnCurve], or [undefined], the call ends there in a
    [TypeError], with the statements before it done and those after it
    skipped.  The functions below return the state the manager is left in
    together with the way the call ended. *)

Inductive Completion : Type :=
| Returned
| Thrown.

(** Every curve of the store has a selection in [path]. *)
Definition hasPaths (curves : list (option Curve)) : bool :=
  forallb (λ entry : option Curve,
             match entry with
             | Some curve => bool_decide (is_Some (c_path curve))
             | None => true
             end) curves.

(** [redrawCurves()].  For every curve a new path is appended to the SVG
    group with the data read by [curve.path.attr('d')] and stored in
    [curve.path], so the field holds a selection afterwards as it did
    before; the loop ends in a [TypeError] at the first curve without
    one. *)
Definition redrawCurves (cm : CurveManager) : Completion :=
  if hasPaths (cm_curves cm) then Returned else Thrown.

Module Call.

(** [deleteCurve(event)]: [this.curves[id].path.remove()] comes right after
    the push, [redrawCurves()] after the list is rebuilt. *)
Definition deleteCurve (cm : CurveManager) (id : nat) : CurveManager * Completion :=
  match slot (cm_curves cm) id with
  | None => (cm, Returned)
  | Some curve =>
      let cm := addAction (ActDelete curve id (nextCurveId (cm_settings cm))) cm in
      match c_path curve with
      | None => (cm, Thrown)
      | Some _ =>
          let cm := withCurves cm (spliceOut id (cm_curves cm)) in
          let cm := withCurves cm (renumber (cm_curves cm)) in
          let cm := withSettings cm (setNextCurveId (cm_settings cm) (length (cm_curves cm))) in
          let cm := updateCurveList cm in
          match redrawCurves cm with
          | Thrown => (cm, Thrown)
          | Returned => (deselectCurve cm, Returned)
          end
      end
  end.

(** [reorderCurves(fromId, toId)]: [redrawCurves()] comes before the
    push. *)
Definition reorderCurves (cm : CurveManager) (fromId toId : nat) : CurveManager * Completion :=
  let curve := slot (cm_curves cm) fromId in
  let cm := withCurves cm (spliceOut fromId (cm_curves cm)) in
  let cm := withCurves cm (spliceIn toId curve (cm_curves cm)) in
  let cm := withCurves cm (renumber (cm_curves cm)) in
  let cm := updateCurveList cm in
  match redrawCurves cm with
  | Thrown => (cm, Thrown)
  | Returned => (addAction (ActReorder fromId toId) cm, Returned)
  end.

(** [recordStyleChange(newColor, newSize)]: each of the two updates starts
    with [curve.path.attr(...)]. *)
Definition recordStyleChange (cm : CurveManager) (newColor : option string)
    (newSize : option number) : CurveManager * Completion :=
  match selectCurveId (cm_settings cm) with
  | None => (cm, Returned)
  | Some id =>
      match slot (cm_curves cm) id with
      | None => (cm, Returned)
      | Some curve =>
          let oldColor := c_color curve in
          let oldSize := c_size curve in
          if Dyn.eqStr oldColor newColor && Dyn.eqNum oldSize newSize then (cm, Returned)
          else
            let cm := addAction (ActStyleChange id oldColor oldSize newColor newSize) cm in
            let '(cm, colorUpdate) :=
              if negb (Dyn.eqStr oldColor newColor)
              then
                match c_path curve with
                | None => (cm, Thrown)
                | Some _ => (modifySlot cm id (λ curve, setColor curve newColor), Returned)
                end
              else (cm, Returned) in
            match colorUpdate with
            | Thrown => (cm, Thrown)
            | Returned =>
                if negb (Dyn.eqNum oldSize newSize)
                then
                  match c_path curve with
                  | None => (cm, Thrown)
                  | Some _ => (modifySlot cm id (λ curve, setSize curve newSize), Returned)
                  end
                else (cm, Returned)
            end
      end
  end.

End Call.






(** [(a, b) => a.knot - b.knot]. *)
Definition compareKnots (a b : PreKnot) : number :=
  Num.sub (Fin (pk_knot a)) (Fin (pk_knot b)).

Definition customKnotsFor (curve : Curve) (knotCount : Z) : list PreKnot :=
  sort compareKnots (filter (λ k, pk_priority k < knotCount - 2) (c_preKnots curve)).

(** [setKnotCount(curveId, knotCount, suppressHistory)].  [fit] is what
    [approximateWithCustomKnots] answers when it is called.  The third
    parameter of the source is never read in its body and is left out. *)
Definition setKnotCount (cm : CurveManager) (curveId : nat) (knotCount : Z) (fit : KnotFit)
    : CurveManager :=
  match slot (cm_curves cm) curveId with
  | None => cm
  | Some curve =>
      match c_originalPoints curve, cm_graphCalculator cm with
      | Some originalPoints, Some graphCalculator =>
          let domain := getDomain graphCalculator in
          let customKnots := customKnotsFor curve knotCount in
          let cm := logged cm (ApproximateWithCustomKnots originalPoints customKnots domain) in
          let result := fit in
          if negb (kf_success result) then cm
          else
            match c_graphCurve curve with
            | Some _ =>
                modifySlot cm curveId
                  (λ curve, setKnotFit curve (kf_latexEquations result) (kf_knots result) knotCount)
            | None => cm
            end
      | _, _ => cm
      end
  end.


(** The six [registerAttempt] calls of [addHandDrawnCurve], in source order
    (the quadratic-chain strategy is commented out in the source). *)
Definition registerAttempts (fits : StrokeFits) : list Attempt :=
  let typeIs (r : option Approximation) (name : string) : bool :=
    match r with
    | Some a => ap_success a && bool_decide (ap_type a = Some name)
    | None => false
    end in
  let attempts := [] in
  let attempts :=
    Selector.registerAttempt attempts "piecewiseLinear" (sf_piecewiseResult fits) 0 in
  let linearResult := sf_linearResult fits in
  let linearPriority := if typeIs linearResult "constant" then 1 else 2 in
  let linearLabel :=
    if typeIs linearResult "vertical" then "linearVertical"%string else "linear"%string in
  let attempts := Selector.registerAttempt attempts linearLabel linearResult linearPriority in
  let attempts :=
    Selector.registerAttempt attempts "singleQuadratic" (sf_singleQuadraticResult fits) 3 in
  let attempts :=
    Selector.registerAttempt attempts "singleCircle" (sf_singleCircleResult fits) 4 in
  let attempts :=
    Selector.registerAttempt attempts "quadraticBSpline" (sf_quadraticBSplineResult fits) 5 in
  Selector.registerAttempt attempts "selectiveHybrid" (sf_selectiveResult fits) 7.

(** The placeholder object.  It has no [minKnots] and [maxKnots]; the
    missing counts read as 0, which is falsy like [undefined]. *)
Definition placeholderFor (descriptor : HandDrawnDescriptor)
    (approximatorSettings : ApproxSettings) : Curve :=
  {| c_id := hd_id descriptor;
     c_type := Some "unknown"%string;
     c_path := None;
     c_color :=
       Dyn.orStr (hd_color descriptor)
         (Dyn.orStr (as_color approximatorSettings) (Some "#000"%string));
     c_size :=
       Dyn.orNum (hd_size descriptor)
         (Dyn.orNum (as_size approximatorSettings) (Some (Fin 1)));
     c_locked := false;
     c_isHidden := false;
     c_isDetailShown := true;
     c_showKnots := Some (default true (as_showKnotsDefault approximatorSettings));
     c_graphCurve := None;
     c_latexEquations := [];
     c_preKnots := [];
     c_knotCount := 0;
     c_originalPoints := Some (hd_domainPath descriptor);
     c_minKnots := 0;
     c_maxKnots := 0;
     c_knotPoints := None;
     c_approximationType := None;
     c_approximationData := None;
     c_approximationDiagnostics := None;
     c_selectedApproximator := None;
     c_approximatorPriority := None;
     c_pendingSizeHistory := None;
     c_pendingColorHistory := None |}.

(** [addHandDrawnCurve(descriptor)].  The result is [None] when the call
    ends in an uncaught [TypeError] (the winner is drawn through
    [this.graphCalculator], which may be [null]; in advanced mode the same
    error is caught).  [graphCalculator.addPoint] is taken to return a point
    for every knot, so that [savedKnots] holds all of them. *)
Definition addHandDrawnCurve (cm : CurveManager) (descriptor : HandDrawnDescriptor)
    (fits : StrokeFits) : CurveManager * option HandDrawnResult :=
  let id := hd_id descriptor in
  let domainPath := hd_domainPath descriptor in
  let color := hd_color descriptor in
  let size := hd_size descriptor in
  let approximatorSettings :=
    default (cm_approximatorSettings cm) (hd_approximatorSettings descriptor) in
  let cm :=
    match slot (cm_curves cm) id with
    | Some _ => cm
    | None =>
        withCurves cm (assign id (placeholderFor descriptor approximatorSettings) (cm_curves cm))
    end in
  let cm := withApproximatorSettings cm (sf_resolvedSettings fits) in
  let attempts := registerAttempts fits in
  let bestAttempt := Selector.bestAttempt attempts in
  let attemptDiagnostics := Selector.attemptDiagnostics attempts in
  match bestAttempt with
  | Some best =>
      match at_approximation best with
      | None => (cm, None)
      | Some approximation =>
          let diagnostics :=
            {| dg_rmsError := d ← ap_diagnostics approximation; dg_rmsError d;
               dg_selectedApproximator := Some (at_label best);
               dg_approximatorPriority := Some (at_priority best);
               dg_alternatives := Some attemptDiagnostics |} in
          match cm_graphCalculator cm with
          | None => (cm, None)
          | Some _ =>
              let graphCurve := sf_graphCurve fits in
              let knotPoints := default [] (ap_knots approximation) in
              let savedKnots := knotPoints in
              let cm :=
                addCurve cm
                  {| d_id := id;
                     d_type := ap_type approximation;
                     d_path := Some selection;
                     d_color := color;
                     d_size := size;
                     d_locked := None;
                     d_graphCurve := Some graphCurve;
                     d_latexEquations := ap_latexEquations approximation;
                     d_preKnots := Some (default [] (ap_preKnots approximation));
                     d_originalPoints := Some domainPath;
                     d_minKnots := Some 2;
                     d_maxKnots := as_maxKnots (cm_approximatorSettings cm);
                     d_approximationType := ap_type approximation;
                     d_approximationData := ap_exportData approximation;
                     d_approximationDiagnostics := Some diagnostics;
                     d_selectedApproximator := Some (at_label best);
                     d_approximatorPriority := Some (at_priority best) |} in
              let cm :=
                modifySlot cm id
                  (λ curve, setFitData curve savedKnots domainPath (at_label best)
                              (at_priority best) (Some diagnostics) (ap_type approximation)
                              (ap_exportData approximation)) in
              (cm, Some {| r_success := true;
                           r_message :=
                             MsgApproximatedAs
                               (Dyn.orStr (ap_type approximation) (Some (at_label best)));
                           r_curve := Some graphCurve;
                           r_diagnostics := Some diagnostics |})
          end
      end
  | None =>
      if hd_useAdvancedMode descriptor
      then
        match cm_graphCalculator cm with
        | None =>
            (cm, Some {| r_success := false; r_message := MsgAdvancedFailed;
                         r_curve := None; r_diagnostics := None |})
        | Some _ =>
            let graphCurve := sf_graphCurve fits in
            let cm :=
              addCurve cm
                {| d_id := id;
                   d_type := Some "parametric"%string;
                   d_path := Some selection;
                   d_color := color;
                   d_size := size;
                   d_locked := None;
                   d_graphCurve := Some graphCurve;
                   d_latexEquations := Some [];
                   d_preKnots := None;
                   d_originalPoints := Some domainPath;
                   d_minKnots := None;
                   d_maxKnots := None;
                   d_approximationType := None;
                   d_approximationData := None;
                   d_approximationDiagnostics := None;
                   d_selectedApproximator := None;
                   d_approximatorPriority := None |} in
            (cm, Some {| r_success := true; r_message := MsgAdvancedAdded;
                         r_curve := Some graphCurve; r_diagnostics := None |})
        end
      else
        let diagnostics :=
          {| dg_rmsError := None;
             dg_selectedApproximator := None;
             dg_approximatorPriority := None;
             dg_alternatives := Some attemptDiagnostics |} in
        let cm :=
          match slot (cm_curves cm) id with
          | Some curve =>
              if bool_decide (c_graphCurve curve = None)
                 || bool_decide (c_type curve = Some "unknown"%string)
              then withCurves cm (<[id := None]> (cm_curves cm))
              else cm
          | None => cm
          end in
        (cm, Some {| r_success := false; r_message := MsgApproximationFailed;
                     r_curve := None; r_diagnostics := Some diagnostics |})
  end.

(** ** Sequences of structural operations *)

Inductive Op : Type :=
| OpAddCurve (descriptor : Descriptor)
| OpAddHandDrawnCurve (descriptor : HandDrawnDescriptor) (fits : StrokeFits)
| OpDeleteCurve (id : nat)
| OpReorderCurves (fromId toId : nat).



Definition emptyManager : CurveManager :=
  {| cm_curves := [];
     cm_settings := mkSettings 0 None None None None None;
     cm_graphCalculator := None;
     cm_approximatorSettings := mkApproxSettings None None None None;
     cm_log := [] |}.

(** ** Vocabulary of the specification *)

Module Spec.

(** Error scores as the ranking reads them: a finite score by its value,
    any other score last. *)
Definition errorBefore (x y : number) : Prop :=
  match x, y with
  | Fin a, Fin b => (a < b)%Q
  | Fin _, _ => True
  | _, _ => False
  end.

Definition errorTied (x y : number) : Prop :=
  match x, y with
  | Fin a, Fin b => (a == b)%Q
  | Fin _, _ | _, Fin _ => False
  | _, _ => True
  end.

Definition labelLe (a b : string) : Prop := String_as_OT.compare a b ≠ Gt.

(** Priority ascending, then error score ascending, then label. *)
Definition rankedBefore (a b : Attempt) : Prop :=
  at_priority a < at_priority b
  ∨ (at_priority a = at_priority b
     ∧ (errorBefore (at_error a) (at_error b)
        ∨ (errorTied (at_error a) (at_error b) ∧ labelLe (at_label a) (at_label b)))).

(** The fallback chain in the words of the specification, for any attempt:
    (a) a finite [diagnostics.rmsError] gives its absolute value, (b) else a
    present [averageLinearity] gives [max(0, 1 - averageLinearity)], (c) else
    the mean of the finite per-segment [rmsError] values if there are any,
    (d) else [+Infinity]. *)
Definition finiteSegmentValues (segs : list (option Segment)) : list Q :=
  omap (λ seg : option Segment,
          match seg ≫= seg_rmsError with
          | Some (Fin r) => Some r
          | _ => None
          end) segs.

Definition chainScore (a : Approximation) : number :=
  match Selector.diagnosticsRms a with
  | Some (Fin r) => Fin (Qabs r)
  | _ =>
      match ap_averageLinearity a with
      | Some v => Num.max0 (Num.fsub (Fin 1) v)
      | None =>
          match finiteSegmentValues <$> ap_segments a with
          | Some (v :: vs) => Selector.mean (v :: vs)
          | _ => PosInf
          end
      end
  end.

Definition knotLe (a b : PreKnot) : Prop := (pk_knot a <= pk_knot b)%Q.

(** The identity invariant of the store. *)
Definition identityInvariant (curves : list (option Curve)) : Prop :=
  ∀ i curve, curves !! i = Some (Some curve) → c_id curve = i.

(** An [addCurve] call names an occupied slot or the next free index. *)
Definition opAdmissible (cm : CurveManager) (op : Op) : Prop :=
  match op with
  | OpAddCurve descriptor =>
      is_Some (slot (cm_curves cm) (d_id descriptor))
      ∨ d_id descriptor = length (cm_curves cm)
  | _ => True
  end.


(** One action record was pushed between [cm] and [cm'], and the history
    manager saw the curve array [seen] when it was called. *)
Definition pushedOnce (cm cm' : CurveManager) (seen : list (option Curve)) : Prop :=
  ∃ action, cm_log cm' = cm_log cm ++ [AddAction action seen].







(** Where the element now at index [j] stood before [splice(i, 1)]. *)
Definition sourceIndex (i j : nat) : nat := if decide (j < i)%nat then j else S j.

End Spec.

(** ** Sample data *)

Module Sample.

Definition approximation (success : bool) (rms : option number) : Approximation :=
  {| ap_success := success;
     ap_type := Some "linear"%string;
     ap_diagnostics := Some (mkDiagnostics rms None None None);
     ap_averageLinearity := None;
     ap_segments := None;
     ap_svgPath := "M0 0L1 1";
     ap_latexEquations := Some ["y=x"%string];
     ap_knots := None;
     ap_preKnots := None;
     ap_exportData := None |}.

(** A failed fit that still reports a finite residual. *)
Definition failedWithResidual : Approximation :=
  approximation false (Some (Fin (1 # 2))).

(** A successful fit scored through one segment of residual -1. *)
Definition scoredBySegment : Approximation :=
  {| ap_success := true;
     ap_type := Some "piecewiseLinear"%string;
     ap_diagnostics := None;
     ap_averageLinearity := None;
     ap_segments := Some [Some (mkSegment (Some (Fin (-1))))];
     ap_svgPath := "M0 0L1 1";
     ap_latexEquations := None;
     ap_knots := None;
     ap_preKnots := None;
     ap_exportData := None |}.

Definition graphHandle : GraphCurve := mkGraphCurve "0".

Definition noSettings : ApproxSettings := mkApproxSettings None None None None.

(** The linear fit succeeds with residual 1/2, the B-spline fit succeeds
    with residual 1/100, every other strategy returns [null]. *)
Definition lineAndSpline : StrokeFits :=
  {| sf_piecewiseResult := None;
     sf_linearResult := Some (approximation true (Some (Fin (1 # 2))));
     sf_singleQuadraticResult := None;
     sf_singleCircleResult := None;
     sf_quadraticBSplineResult := Some (approximation true (Some (Fin (1 # 100))));
     sf_selectiveResult := None;
     sf_resolvedSettings := noSettings;
     sf_graphCurve := graphHandle |}.

(** Every strategy fails; the linear one still reports a residual. *)
Definition nothingFits : StrokeFits :=
  {| sf_piecewiseResult := None;
     sf_linearResult := Some failedWithResidual;
     sf_singleQuadraticResult := None;
     sf_singleCircleResult := None;
     sf_quadraticBSplineResult := None;
     sf_selectiveResult := None;
     sf_resolvedSettings := noSettings;
     sf_graphCurve := graphHandle |}.

Definition stroke (id : nat) : HandDrawnDescriptor :=
  {| hd_id := id;
     hd_domainPath := [(0, 0)%Q; (1, 1)%Q];
     hd_color := Some "#f00"%string;
     hd_size := Some (Fin 4);
     hd_useAdvancedMode := false;
     hd_approximatorSettings := None |}.

Definition descriptor (id : nat) : Descriptor :=
  {| d_id := id;
     d_type := Some "linear"%string;
     d_path := Some selection;
     d_color := Some "#00f"%string;
     d_size := Some (Fin 4);
     d_locked := None;
     d_graphCurve := Some graphHandle;
     d_latexEquations := Some ["y=x"%string];
     d_preKnots := Some [mkPreKnot (3 # 4) 1; mkPreKnot (1 # 4) 0; mkPreKnot (1 # 2) 2];
     d_originalPoints := Some [(0, 0)%Q; (1, 1)%Q];
     d_minKnots := None;
     d_maxKnots := None;
     d_approximationType := None;
     d_approximationData := None;
     d_approximationDiagnostics := None;
     d_selectedApproximator := None;
     d_approximatorPriority := None |}.


(** A manager with a graph calculator and no curves. *)
Definition manager : CurveManager :=
  {| cm_curves := [];
     cm_settings := mkSettings 0 None None None None None;
     cm_graphCalculator := Some (mkGraphCalculator (mkDomain (-10) 10 (-10) 10));
     cm_approximatorSettings := noSettings;
     cm_log := [] |}.

(** The same manager after two curves were added at ids 0 and 1. *)
Definition twoCurves : CurveManager :=
  addCurve (addCurve manager (descriptor 0)) (descriptor 1).

(** Five curves at ids 0 to 4. *)
Definition fiveCurves : CurveManager :=
  foldl addCurve manager (map descriptor (seq 0 5)).

(** The id stored in each slot. *)
Definition ids (cm : CurveManager) : list (option nat) :=
  map (λ entry : option Curve, c_id <$> entry) (cm_curves cm).

Definition knotFit (success : bool) : KnotFit :=
  {| kf_success := success;
     kf_svgPath := "M0 0Q1 1 2 0";
     kf_knots := [(0, 0)%Q; (1, 1)%Q; (2, 0)%Q];
     kf_latexEquations := ["y=x^2"%string; "y=2-x"%string] |}.

End Sample.

(** ** Further operations of [CurveManager] *)

(** [getCurveIdByGraphCurveId(graphCurveId)]: the loop over the indices,
    started at [i].  The id asked for is given as a string, as the ids of
    graph curves are; the loose [==] is then string equality. *)
Fixpoint findGraphCurveFrom (graphCurveId : string) (curves : list (option Curve)) (i : nat)
    : option nat :=
  match curves with
  | [] => None
  | entry :: rest =>
      if bool_decide ((entry ≫= c_graphCurve) ≫= (λ g, Some (gc_id g)) = Some graphCurveId)
      then Some i
      else findGraphCurveFrom graphCurveId rest (S i)
  end.

Definition getCurveIdByGraphCurveId (cm : CurveManager) (graphCurveId : string) : option nat :=
  findGraphCurveFrom graphCurveId (cm_curves cm) 0.

(** [getCurveDetailState(id)]. *)
Definition getCurveDetailState (cm : CurveManager) (id : nat) : bool :=
  if bool_decide (id < length (cm_curves cm))%nat
  then match slot (cm_curves cm) id with
       | Some curve => c_isDetailShown curve
       | None => false
       end
  else false.


(** ** Dragging a list item *)



(** ** Drawing a stroke ([UIManager.endDrawing]) *)

(** The drawing state of the UI manager: [isDrawing] and
    [currentDomainPath] ([None] is [undefined]). *)
Record Drawing : Type := mkDrawing {
  isDrawing : bool;
  currentDomainPath : option (list Point)
}.

(** What the collaborators answer during [endDrawing]: the advanced-mode
    flag, the approximator settings, and the answers used by
    [addHandDrawnCurve]. *)
Record DrawingAnswers : Type := mkDrawingAnswers {
  da_advancedMode : bool;
  da_settings : option ApproxSettings;
  da_fits : StrokeFits
}.

(** [endDrawing()].  The settings object is the one the curve manager holds.
    When [addHandDrawnCurve] ends in a [TypeError] the rest of the body is
    not run. *)
Definition endDrawing (ui : Drawing) (cm : CurveManager) (answers : DrawingAnswers)
    : Drawing * CurveManager :=
  if negb (isDrawing ui) then (ui, cm)
  else
    match currentDomainPath ui with
    | None => (mkDrawing false (Some []), cm)
    | Some path =>
        if bool_decide (length path < 2)%nat then (mkDrawing false (Some []), cm)
        else
          let useAdvancedMode := da_advancedMode answers in
          let curveId := nextCurveId (cm_settings cm) in
          let '(cm, curveResult) :=
            addHandDrawnCurve cm
              {| hd_id := curveId;
                 hd_domainPath := path;
                 hd_color := currentColor (cm_settings cm);
                 hd_size := currentSize (cm_settings cm);
                 hd_useAdvancedMode := useAdvancedMode;
                 hd_approximatorSettings := da_settings answers |}
              (da_fits answers) in
          match curveResult with
          | None => (ui, cm)
          | Some curveResult =>
              let cm :=
                if r_success curveResult
                then withSettings cm
                       (setNextCurveId (cm_settings cm) (S (nextCurveId (cm_settings cm))))
                else cm in
              (mkDrawing false (Some []), cm)
          end
    end.

(** ** Restoring a saved graph ([SettingsManager.loadGraphFromJSON]) *)

(** One entry of [result.curves], as far as the restore loop reads it. *)
Record CurveData : Type := mkCurveData {
  cd_id : option string;
  cd_type : option string;
  cd_color : option string;
  cd_width : option number;
  cd_latexEquations : option (list string);
  cd_knotPoints : option (list Point);
  cd_isHidden : option bool;
  cd_visibility : option bool;
  cd_isDetailShown : option bool;
  cd_graphCurve : option GraphCurve;
  cd_preKnots : option (list PreKnot);
  cd_minKnots : option Z;
  cd_maxKnots : option Z;
  cd_originalPoints : option (list Point)
}.

(** Answer of [loadFromJSON]. *)
Record LoadResult : Type := mkLoadResult {
  lr_success : bool;
  lr_curves : list CurveData
}.

(** [curveData.id && curveData.id.toString().startsWith('emphasis-')]. *)
Definition isEmphasis (curveData : CurveData) : bool :=
  match cd_id curveData with
  | Some id => String.prefix "emphasis-" id
  | None => false
  end.

(** [curveData.isHidden !== undefined ? curveData.isHidden
     : (curveData.visibility === false)]. *)
Definition hiddenState (curveData : CurveData) : bool :=
  match cd_isHidden curveData with
  | Some hidden => hidden
  | None => bool_decide (cd_visibility curveData = Some false)
  end.

(** The callback of [result.curves.forEach].  The manager's [uiManager] is
    set, as [app.js] wires it, and its settings are the manager's.  The flag
    is [false] when the body ends in a [TypeError]: on [graphCurve.path]
    for an entry without graph curve, or on the write to
    [curves[curveId].knotPoints] when that slot is empty. *)
Definition restoreCurve (cm : CurveManager) (curveData : CurveData) : CurveManager * bool :=
  if isEmphasis curveData then (cm, true)
  else
    let curveId := nextCurveId (cm_settings cm) in
    let cm := withSettings cm (setNextCurveId (cm_settings cm) (S curveId)) in
    let color := Dyn.orStr (cd_color curveData) (Some "#000"%string) in
    let width := Dyn.orNum (cd_width curveData) (Some (Fin 4)) in
    let latexEquations := default [] (cd_latexEquations curveData) in
    let knotPoints := default [] (cd_knotPoints curveData) in
    let isHidden := hiddenState curveData in
    let isDetailShown := default false (cd_isDetailShown curveData) in
    match cd_graphCurve curveData with
    | None => (cm, false)
    | Some graphCurve =>
        let preKnots := default [] (cd_preKnots curveData) in
        let minKnots := Dyn.orCount (cd_minKnots curveData) 2 in
        let maxKnots := Dyn.orCount (cd_maxKnots curveData) 10 in
        let originalPoints := default [] (cd_originalPoints curveData) in
        let type := Dyn.orStr (cd_type curveData) (Some "parametric"%string) in
        let cm :=
          addCurve cm
            {| d_id := curveId;
               d_type := type;
               d_path := Some selection;
               d_color := color;
               d_size := width;
               d_locked := None;
               d_graphCurve := Some graphCurve;
               d_latexEquations := Some latexEquations;
               d_preKnots := Some preKnots;
               d_originalPoints := Some originalPoints;
               d_minKnots := Some minKnots;
               d_maxKnots := Some maxKnots;
               d_approximationType := None;
               d_approximationData := None;
               d_approximationDiagnostics := None;
               d_selectedApproximator := None;
               d_approximatorPriority := None |} in
        match slot (cm_curves cm) curveId with
        | None => (cm, false)
        | Some _ =>
            let cm :=
              modifySlot cm curveId
                (λ c, mkCurve (c_id c) (c_type c) (c_path c) (c_color c) (c_size c) (c_locked c)
                        (c_isHidden c) (c_isDetailShown c) (c_showKnots c) (c_graphCurve c)
                        (c_latexEquations c) (c_preKnots c) (c_knotCount c)
                        (c_originalPoints c) (c_minKnots c) (c_maxKnots c) (Some knotPoints)
                        (c_approximationType c) (c_approximationData c)
                        (c_approximationDiagnostics c) (c_selectedApproximator c)
                        (c_approximatorPriority c) (c_pendingSizeHistory c)
                        (c_pendingColorHistory c)) in
            let cm := setCurveVisibility cm curveId (negb isHidden) in
            let cm := setCurveDetailState cm curveId isDetailShown in
            (cm, true)
        end
    end.

(** [result.curves.forEach(...)]: an exception ends the loop. *)
Fixpoint restoreCurves (cm : CurveManager) (curves : list CurveData) : CurveManager * bool :=
  match curves with
  | [] => (cm, true)
  | curveData :: rest =>
      let '(cm, done) := restoreCurve cm curveData in
      if done then restoreCurves cm rest else (cm, false)
  end.

(** [loadGraphFromJSON(jsonData, resetHistory)], from the answer of
    [loadFromJSON] on ([None] when it is [null] or when the call threw); the
    flag is the value returned.  Emptying the undo and redo stacks at the
    end does not undo the calls to the history manager, which stay in the
    log. *)
Definition loadGraphFromJSON (cm : CurveManager) (result : option LoadResult)
    : CurveManager * bool :=
  match result with
  | Some result =>
      if lr_success result
      then
        let cm := withCurves cm [] in
        let cm := withSettings cm (setNextCurveId (cm_settings cm) 0) in
        let '(cm, done) := restoreCurves cm (lr_curves result) in
        if done then (updateCurveList cm, true) else (cm, false)
      else (cm, false)
  | None => (cm, false)
  end.

(** ** The eraser ([UIManager._handleEraseAtEvent]) *)


(** ** Export to Desmos ([DesmosIO.exportToDesmosJSON]) *)

(** An equation object, with the fields the export reads.  The bounds of
    a domain are kept by the application as strings. *)
Record EquationDomain : Type := mkEquationDomain {
  ed_type : option string;
  ed_start : string;
  ed_end : string
}.

Record Equation : Type := mkEquation {
  eq_latex : option string;
  eq_formula : option string;
  eq_domain : option EquationDomain
}.

(** A curve, with the fields the export reads. *)
Record ExportedCurve : Type := mkExportedCurve {
  x_id : nat;
  x_type : option string;
  x_color : option string;
  x_size : option number;
  x_isHidden : bool;
  x_latexEquations : option (list Equation)
}.

(** An entry of [expressions.list]. *)
Inductive DesmosItem : Type :=
| DesmosFolder (id title : string) (collapsed secret : bool)
| DesmosExpression (id folderId latex color lineStyle lineWidth : string).

Record DesmosState : Type := mkDesmosState {
  ds_version : Z;
  ds_randomSeed : string;
  ds_viewport : Domain;
  ds_expressions : list DesmosItem
}.

Module Desmos.

(** [`folder_${curve.id}`]; an id is an array index and prints in decimal. *)
Definition folderId (curve : ExportedCurve) : string :=
  "folder_" +:+ pretty (x_id curve).

(** [`expr_${curve.id}_${index}`]. *)
Definition expressionId (curve : ExportedCurve) (index : nat) : string :=
  "expr_" +:+ pretty (x_id curve) +:+ "_" +:+ pretty index.

Definition folder (curve : ExportedCurve) : DesmosItem :=
  DesmosFolder (folderId curve)
    ("Curve " +:+ pretty (x_id curve) +:+ " ("
     +:+ default "unknown" (Dyn.orStr (x_type curve) (Some "unknown")) +:+ ")")
    true false.

(** The body of [curve.latexEquations.forEach((eq, index) => ...)]: the
    expression pushed for an equation, if any.  [numberToString] is
    [String(x)] on numbers. *)
Definition expression (numberToString : number → string) (curve : ExportedCurve)
    (index : nat) (eq : Equation) : option DesmosItem :=
  match Dyn.orStr (eq_latex eq) (eq_formula eq) with
  | None => None
  | Some latex =>
      if bool_decide (latex = "") then None
      else
        let latex :=
          match eq_domain eq with
          | Some domain =>
              if bool_decide (ed_type domain = Some "x_range")
              then latex +:+ "\ \left\{" +:+ ed_start domain +:+ "<x<" +:+ ed_end domain
                   +:+ "\right\}"
              else latex
          | None => latex
          end in
        Some (DesmosExpression (expressionId curve index) (folderId curve) latex
                (default "#000000" (Dyn.orStr (x_color curve) (Some "#000000")))
                "SOLID"
                (numberToString
                   (default (Fin (5 # 2)) (Dyn.orNum (x_size curve) (Some (Fin (5 # 2)))))))
  end.

(** [curve.latexEquations.forEach], from [index] on. *)
Fixpoint expressionsFrom (numberToString : number → string) (curve : ExportedCurve)
    (index : nat) (equations : list Equation) : list DesmosItem :=
  match equations with
  | [] => []
  | eq :: rest =>
      match expression numberToString curve index eq with
      | Some item => item :: expressionsFrom numberToString curve (S index) rest
      | None => expressionsFrom numberToString curve (S index) rest
      end
  end.

(** What one pass of [curves.forEach] pushes. *)
Definition pushed (numberToString : number → string) (entry : option ExportedCurve)
    : list DesmosItem :=
  match entry with
  | Some curve =>
      if x_isHidden curve then []
      else
        folder curve
        :: match x_latexEquations curve with
           | Some equations => expressionsFrom numberToString curve 0 equations
           | None => []
           end
  | None => []
  end.

End Desmos.

(** [exportToDesmosJSON(curves)], for an array. *)
Definition exportToDesmosJSON (numberToString : number → string)
    (curves : list (option ExportedCurve)) : DesmosState :=
  let expressions :=
    foldl (λ expressions entry, expressions ++ Desmos.pushed numberToString entry) [] curves in
  {| ds_version := 9;
     ds_randomSeed := "grapen_export";
     ds_viewport := mkDomain (-10) 10 (-10) 10;
     ds_expressions := expressions |}.

(** ** More vocabulary *)

Module Spec2.

(** The string [s] does not hold the character [c]. *)
Fixpoint lacks (c : Ascii.ascii) (s : string) : Prop :=
  match s with
  | EmptyString => True
  | String a rest => a ≠ c ∧ lacks c rest
  end.

Definition itemId (item : DesmosItem) : string :=
  match item with
  | DesmosFolder id _ _ _ => id
  | DesmosExpression id _ _ _ _ _ => id
  end.

Definition isFolder (item : DesmosItem) : bool :=
  match item with
  | DesmosFolder _ _ _ _ => true
  | DesmosExpression _ _ _ _ _ _ => false
  end.

(** The curves of the store that are exported. *)
Definition exported (curves : list (option ExportedCurve)) : list ExportedCurve :=
  omap (λ entry, curve ← entry; if x_isHidden curve then None else Some curve) curves.

(** Slot [i] holds a curve drawn as the graph curve of the given id. *)
Definition holdsGraphCurve (curves : list (option Curve)) (i : nat) (graphCurveId : string)
    : Prop :=
  ∃ curve graphCurve,
    slot curves i = Some curve
    ∧ c_graphCurve curve = Some graphCurve
    ∧ gc_id graphCurve = graphCurveId.


(** What the restore loop makes of an entry. *)
Definition restored (curveData : CurveData) (curve : Curve) : Prop :=
  c_type curve = Dyn.orStr (cd_type curveData) (Some "parametric"%string)
  ∧ c_color curve = Dyn.orStr (cd_color curveData) (Some "#000"%string)
  ∧ c_size curve = Dyn.orNum (cd_width curveData) (Some (Fin 4))
  ∧ c_isHidden curve = hiddenState curveData
  ∧ c_isDetailShown curve = default false (cd_isDetailShown curveData)
  ∧ c_graphCurve curve = cd_graphCurve curveData
  ∧ c_latexEquations curve = default [] (cd_latexEquations curveData)
  ∧ c_preKnots curve = default [] (cd_preKnots curveData)
  ∧ c_originalPoints curve = Some (default [] (cd_originalPoints curveData))
  ∧ c_knotPoints curve = Some (default [] (cd_knotPoints curveData)).



(** No curve sits at or above the next id to hand out. *)
Definition freshAbove (cm : CurveManager) : Prop :=
  ∀ i, (nextCurveId (cm_settings cm) ≤ i)%nat → slot (cm_curves cm) i = None.

(** A value that is a finite number at least 0 or [+Infinity]. *)
Definition positiveOrZero (x : number) : Prop :=
  match x with
  | Fin q => (0 <= q)%Q
  | PosInf => True
  | NegInf | NaN => False
  end.

(** An error score that can be ranked or reported: never negative, never
    [-Infinity]. *)
Definition nonNegative (x : number) : Prop :=
  match x with
  | Fin q => (0 <= q)%Q
  | PosInf | NaN => True
  | NegInf => False
  end.

End Spec2.

(** * Properties *)

(** ** The sort returns a sorted rearrangement *)

Section SortFacts.
Context {A : Type} (comparefn : A → A → number) (R : A → A → Prop).
Hypothesis before : ∀ x y, sortCompare comparefn x y = Lt → R x y.
Hypothesis notBefore : ∀ x y, sortCompare comparefn x y ≠ Lt → R y x.
Hypothesis chain : ∀ x y z, R x y → R y z → R x z.

Lemma insertSorted_perm x l : insertSorted comparefn x l ≡ₚ x :: l.
Proof.
  induction l as [|y l IH]; simpl; [done|].
  destruct (sortCompare comparefn x y); try done.
  - rewrite IH. apply perm_swap.
  - rewrite IH. apply perm_swap.
Qed.

Lemma insertSorted_sorted x l :
  StronglySorted R l → StronglySorted R (insertSorted comparefn x l).
Proof.
  induction 1 as [|y l Hl IH Hy]; simpl.
  - repeat constructor.
  - destruct (sortCompare comparefn x y) eqn:E.
    + constructor; [exact IH|].
      rewrite insertSorted_perm. constructor; [|exact Hy].
      apply notBefore. congruence.
    + constructor; [by constructor|].
      constructor; [by apply before|].
      eapply Forall_impl; [exact Hy|]. intros z Hz.
      eapply chain; [|exact Hz]. by apply before.
    + constructor; [exact IH|].
      rewrite insertSorted_perm. constructor; [|exact Hy].
      apply notBefore. congruence.
Qed.

Lemma sort_from_perm acc l :
  foldl (λ acc x, insertSorted comparefn x acc) acc l ≡ₚ acc ++ l.
Proof.
  revert acc. induction l as [|x l IH]; intros acc; simpl.
  - by rewrite app_nil_r.
  - rewrite IH, insertSorted_perm. simpl. apply Permutation_middle.
Qed.

Lemma sort_perm l : sort comparefn l ≡ₚ l.
Proof. unfold sort. by rewrite sort_from_perm. Qed.

Lemma sort_from_sorted acc l :
  StronglySorted R acc →
  StronglySorted R (foldl (λ acc x, insertSorted comparefn x acc) acc l).
Proof.
  revert acc. induction l as [|x l IH]; intros acc Hacc; simpl; [done|].
  by apply IH, insertSorted_sorted.
Qed.

Lemma sort_sorted l : StronglySorted R (sort comparefn l).
Proof. apply sort_from_sorted. constructor. Qed.

Lemma sort_head_least l w x :
  head (sort comparefn l) = Some w → x ∈ l → R w x.
Proof.
  intros Hw Hx.
  pose proof (sort_sorted l) as Hs. pose proof (sort_perm l) as Hp.
  rewrite <- Hp in Hx.
  destruct (sort comparefn l) as [|w' rest]; [done|].
  simpl in Hw. injection Hw as ->.
  apply StronglySorted_inv in Hs as [_ Hall].
  apply elem_of_cons in Hx as [->|Hx].
  - destruct (sortCompare comparefn w w) eqn:E.
    + apply notBefore. congruence.
    + by apply before.
    + apply notBefore. congruence.
  - rewrite Forall_forall in Hall. by apply Hall.
Qed.

Lemma sort_head_some l : l ≠ [] → is_Some (head (sort comparefn l)).
Proof.
  intros Hl. pose proof (sort_perm l) as Hp.
  destruct (sort comparefn l) as [|w rest]; [|by eexists].
  apply Permutation_nil in Hp. done.
Qed.
End SortFacts.

(** ** Error score *)

Lemma segmentErrors_abs segs :
  Selector.segmentErrors segs = Qabs <$> Spec.finiteSegmentValues segs.
Proof.
  induction segs as [|seg segs IH]; [done|].
  unfold Selector.segmentErrors, Spec.finiteSegmentValues in *. simpl.
  destruct seg as [[[[r| | |]|]]|]; simpl; first [exact IH | f_equal; exact IH].
Qed.

(** C2, as stated, fails: a failed attempt that reports a finite residual
    is scored [+Infinity], not the residual's absolute value, and the mean
    over segments is taken over absolute values. *)
Lemma getErrorScore_departs_from_chain :
  Num.strictNe (Selector.getErrorScore (Some Sample.failedWithResidual))
               (Spec.chainScore Sample.failedWithResidual) = true
  ∧ Num.strictNe (Selector.getErrorScore (Some Sample.scoredBySegment))
                 (Spec.chainScore Sample.scoredBySegment) = true.
Proof. split; vm_compute; reflexivity. Qed.

(** C2, amended: a missing or unsuccessful attempt scores [+Infinity]; a
    successful one follows the chain, in order: finite [diagnostics.rmsError]
    gives its absolute value; else a numeric [averageLinearity] gives
    [max(0, 1 - averageLinearity)], the difference being the double nearest
    to it; else a segment array with finite per-segment [rmsError] values
    gives the mean of their absolute values as the code computes it: the
    values are added from the left, each sum rounded to a double, and the
    last sum divided by their number and rounded; else [+Infinity]. *)
Theorem getErrorScore_fallback_chain (a : Approximation) :
  Selector.getErrorScore None = PosInf
  ∧ (ap_success a = false → Selector.getErrorScore (Some a) = PosInf)
  ∧ (ap_success a = true →
     (∀ r, Selector.diagnosticsRms a = Some (Fin r) →
           Selector.getErrorScore (Some a) = Fin (Qabs r))
     ∧ (Num.isFinite (Selector.diagnosticsRms a) = false →
        (∀ v, ap_averageLinearity a = Some v →
              Selector.getErrorScore (Some a) = Num.max0 (Num.fsub (Fin 1) v))
        ∧ (ap_averageLinearity a = None →
           (∀ segs, ap_segments a = Some segs →
                    Spec.finiteSegmentValues segs ≠ [] →
                    Selector.getErrorScore (Some a)
                    = Selector.mean (Qabs <$> Spec.finiteSegmentValues segs))
           ∧ ((ap_segments a = None
               ∨ ∃ segs, ap_segments a = Some segs ∧ Spec.finiteSegmentValues segs = []) →
              Selector.getErrorScore (Some a) = PosInf)))).
Proof.
  split; [done|]. split.
  - intros Hs. simpl. by rewrite Hs.
  - intros Hs. simpl. rewrite Hs. simpl. split.
    + intros r Hr. by rewrite Hr.
    + intros Hnf. rewrite Hnf. split.
      * intros v Hv. by rewrite Hv.
      * intros Hal. rewrite Hal. split.
        -- intros segs Hsegs Hne. rewrite Hsegs, segmentErrors_abs.
           destruct (Spec.finiteSegmentValues segs); done.
        -- intros [Hnone|(segs & Hsegs & Hnil)].
           ++ by rewrite Hnone.
           ++ by rewrite Hsegs, segmentErrors_abs, Hnil.
Qed.

Lemma getErrorScore_fallback_chain_witness :
  Selector.getErrorScore (Some Sample.scoredBySegment) = Selector.mean [Qabs (-1)]
  ∧ Selector.getErrorScore (Some (Sample.approximation true (Some (Fin (-3 # 4)))))
    = Fin (Qabs (-3 # 4)).
Proof.
  split.
  - destruct (getErrorScore_fallback_chain Sample.scoredBySegment) as (_ & _ & H).
    destruct (H eq_refl) as (_ & H1).
    destruct (H1 eq_refl) as (_ & H2).
    destruct (H2 eq_refl) as (H3 & _).
    apply (H3 [Some (mkSegment (Some (Fin (-1))))] eq_refl). discriminate.
  - destruct (getErrorScore_fallback_chain (Sample.approximation true (Some (Fin (-3 # 4)))))
      as (_ & _ & H).
    destruct (H eq_refl) as (H1 & _).
    apply (H1 (-3 # 4)%Q). reflexivity.
Defined.

(** The mean is a mean of doubles.  The two segments with the residuals
    nearest to 0.1 and 0.2 score 0.15000000000000002, which is neither their
    exact mean nor the double nearest to it; and two segments of residual
    [2^1023] score [+Infinity], their sum being past the largest double. *)
Example mean_is_rounded :
  Selector.mean [3602879701896397 # 36028797018963968; 3602879701896397 # 18014398509481984]
  = Fin (1351079888211149 # 9007199254740992)
  ∧ Num.round ((3602879701896397 # 36028797018963968) + (3602879701896397 # 18014398509481984))
    = Fin (1351079888211149 # 4503599627370496)
  ∧ Num.round (3 # 20) = Fin (5404319552844595 # 36028797018963968)
  ∧ Selector.mean [inject_Z (2 ^ 1023); inject_Z (2 ^ 1023)] = PosInf
  ∧ Num.fsub (Fin 1) (Fin (3602879701896397 # 36028797018963968))
    = Fin (8106479329266893 # 9007199254740992).
Proof. by vm_compute. Qed.

(** ** Ranking of the successful attempts *)

Lemma sign_ofZ z : (inject_Z z ?= 0)%Q = (z ?= 0).
Proof. unfold Qcompare. simpl. by rewrite Z.mul_1_r. Qed.

Lemma sign_difference a b : ((a - b ?= 0) = (a ?= b))%Q.
Proof.
  destruct (a ?= b)%Q eqn:E.
  - rewrite <- Qeq_alt in *. lra.
  - rewrite <- Qlt_alt in *. lra.
  - rewrite <- Qgt_alt in *. lra.
Qed.

Lemma label_compare_flip a b :
  String_as_OT.compare a b ≠ Lt → Spec.labelLe b a.
Proof.
  unfold Spec.labelLe. intros H.
  destruct (String_as_OT.compare_spec a b) as [->|Hlt|Hgt]; [|done|].
  - destruct (String_as_OT.compare_spec b b) as [_|Hlt|Hlt]; try done;
      by apply (StrictOrder_Irreflexive (R := String_as_OT.lt)) in Hlt.
  - unfold String_as_OT.lt in Hgt. by rewrite Hgt.
Qed.

Lemma labelLe_trans a b c : Spec.labelLe a b → Spec.labelLe b c → Spec.labelLe a c.
Proof.
  unfold Spec.labelLe. intros Hab Hbc.
  destruct (String_as_OT.compare_spec a b) as [->|Hab'|Hab']; [done| |].
  - destruct (String_as_OT.compare_spec b c) as [->|Hbc'|Hbc'].
    + unfold String_as_OT.lt in Hab'. by rewrite Hab'.
    + pose proof (StrictOrder_Transitive (R := String_as_OT.lt) _ _ _ Hab' Hbc') as H.
      unfold String_as_OT.lt in H. by rewrite H.
    + done.
  - done.
Qed.

Lemma rankingError_cases e :
  (∃ q, e = Fin q ∧ Selector.rankingError e = Fin q)
  ∨ ((∀ q, e ≠ Fin q) ∧ Selector.rankingError e = PosInf).
Proof. destruct e; [left; eauto|right; by split..]. Qed.

Lemma compareAttempts_before a b :
  sortCompare Selector.compareAttempts a b = Lt → Spec.rankedBefore a b.
Proof.
  unfold sortCompare, Selector.compareAttempts, Spec.rankedBefore.
  destruct (Z.eqb_spec (at_priority a) (at_priority b)) as [Hp|Hp]; simpl.
  - intros H. right. split; [done|]. revert H.
    destruct (rankingError_cases (at_error a)) as [(x & -> & ->)|[Ha ->]];
      destruct (rankingError_cases (at_error b)) as [(y & -> & ->)|[Hb ->]]; simpl.
    + destruct (Qeq_bool x y) eqn:E; simpl.
      * intros H. right. split; [by apply Qeq_bool_iff|].
        unfold Selector.localeCompare, Spec.labelLe in *.
        by destruct (String_as_OT.compare (at_label a) (at_label b)).
      * rewrite sign_difference. intros H. left. by apply Qlt_alt.
    + intros _. left. destruct (at_error b) as [q| | |]; [by destruct (Hb q)|done..].
    + done.
    + intros H. right. split.
      * destruct (at_error a) as [q| | |]; [by destruct (Ha q)|..];
          destruct (at_error b) as [q| | |]; try done; by destruct (Hb q).
      * unfold Selector.localeCompare, Spec.labelLe in *.
        by destruct (String_as_OT.compare (at_label a) (at_label b)).
  - unfold Num.ofZ. rewrite sign_ofZ. intros H. left.
    rewrite Z.compare_lt_iff in H. lia.
Qed.

Lemma compareAttempts_not_before a b :
  sortCompare Selector.compareAttempts a b ≠ Lt → Spec.rankedBefore b a.
Proof.
  unfold sortCompare, Selector.compareAttempts, Spec.rankedBefore.
  destruct (Z.eqb_spec (at_priority a) (at_priority b)) as [Hp|Hp]; simpl.
  - intros H. right. split; [done|]. revert H.
    destruct (rankingError_cases (at_error a)) as [(x & -> & ->)|[Ha ->]];
      destruct (rankingError_cases (at_error b)) as [(y & -> & ->)|[Hb ->]]; simpl.
    + destruct (Qeq_bool x y) eqn:E; simpl.
      * intros H. right. split; [symmetry; by apply Qeq_bool_iff|].
        apply label_compare_flip. unfold Selector.localeCompare in H.
        by destruct (String_as_OT.compare (at_label a) (at_label b)).
      * rewrite sign_difference. intros H. left.
        destruct (x ?= y)%Q eqn:C; [|done|by apply Qgt_alt].
        apply Qeq_alt, Qeq_bool_iff in C. congruence.
    + done.
    + intros _. left. destruct (at_error a) as [q| | |]; [by destruct (Ha q)|done..].
    + intros H. right. split.
      * destruct (at_error a) as [q| | |]; [by destruct (Ha q)|..];
          destruct (at_error b) as [q| | |]; try done; by destruct (Hb q).
      * apply label_compare_flip. unfold Selector.localeCompare in H.
        by destruct (String_as_OT.compare (at_label a) (at_label b)).
  - unfold Num.ofZ. rewrite sign_ofZ. intros H. left.
    destruct (at_priority a - at_priority b ?= 0) eqn:C; [|done|].
    + rewrite Z.compare_eq_iff in C. lia.
    + rewrite Z.compare_gt_iff in C. lia.
Qed.

Lemma errorBefore_trans x y z :
  Spec.errorBefore x y → Spec.errorBefore y z → Spec.errorBefore x z.
Proof. destruct x, y, z; simpl; try done. apply Qlt_trans. Qed.

Lemma errorTied_trans x y z :
  Spec.errorTied x y → Spec.errorTied y z → Spec.errorTied x z.
Proof. destruct x, y, z; simpl; try done. apply Qeq_trans. Qed.

Lemma errorBefore_tied x y z :
  Spec.errorBefore x y → Spec.errorTied y z → Spec.errorBefore x z.
Proof. destruct x, y, z; simpl; try done. intros H1 H2. by rewrite <- H2. Qed.

Lemma errorTied_before x y z :
  Spec.errorTied x y → Spec.errorBefore y z → Spec.errorBefore x z.
Proof. destruct x, y, z; simpl; try done. intros H1 H2. by rewrite H1. Qed.

Lemma rankedBefore_trans a b c :
  Spec.rankedBefore a b → Spec.rankedBefore b c → Spec.rankedBefore a c.
Proof.
  unfold Spec.rankedBefore.
  intros [Hab|[Hab Eab]] [Hbc|[Hbc Ebc]]; [left; lia..|].
  right. split; [lia|].
  destruct Eab as [Eab|[Tab Lab]], Ebc as [Ebc|[Tbc Lbc]].
  - left. by eapply errorBefore_trans.
  - left. by eapply errorBefore_tied.
  - left. by eapply errorTied_before.
  - right. split; [by eapply errorTied_trans|by eapply labelLe_trans].
Qed.

Lemma rankedBefore_priority a b : Spec.rankedBefore a b → at_priority a ≤ at_priority b.
Proof. unfold Spec.rankedBefore. intros [?|[? _]]; lia. Qed.

(** C1.  When some attempt succeeded, the winner is the head of the
    successful attempts sorted by priority, then error score (scores that
    are not finite last), then label: the sorted array is a rearrangement of
    the successes, it is sorted by that ranking, and its head ranks before
    every success.  In particular the winner has the least priority, so a
    success of strictly lower priority shuts out any attempt of higher
    priority, whatever their error scores. *)
Theorem bestAttempt_first_ranked_success (attempts : list Attempt) :
  (∃ a, a ∈ attempts ∧ Selector.succeeded a = true) →
  ∃ w,
    Selector.bestAttempt attempts = Some w
    ∧ head (Selector.successfulAttempts attempts) = Some w
    ∧ Selector.successfulAttempts attempts
      ≡ₚ filter (λ entry, Selector.succeeded entry = true) attempts
    ∧ StronglySorted Spec.rankedBefore (Selector.successfulAttempts attempts)
    ∧ w ∈ attempts
    ∧ Selector.succeeded w = true
    ∧ (∀ b, b ∈ attempts → Selector.succeeded b = true → Spec.rankedBefore w b)
    ∧ (∀ a b, a ∈ attempts → Selector.succeeded a = true →
              at_priority a < at_priority b → w ≠ b).
Proof.
  intros (a & Ha & Hsa).
  set (successes := filter (λ entry, Selector.succeeded entry = true) attempts).
  assert (a ∈ successes) as Hin by (by apply list_elem_of_filter).
  assert (successes ≠ []) as Hne by (intros E; rewrite E in Hin; by apply not_elem_of_nil in Hin).
  destruct (sort_head_some Selector.compareAttempts successes Hne) as [w Hw].
  pose proof (sort_perm Selector.compareAttempts successes) as Hperm.
  assert (w ∈ successes) as Hws.
  { rewrite <- Hperm. apply head_Some_elem_of. exact Hw. }
  apply list_elem_of_filter in Hws as [Hsw Hwin].
  assert (∀ b, b ∈ attempts → Selector.succeeded b = true → Spec.rankedBefore w b) as Hleast.
  { intros b Hb Hsb.
    eapply (sort_head_least Selector.compareAttempts Spec.rankedBefore);
      [apply compareAttempts_before|apply compareAttempts_not_before
      |apply rankedBefore_trans|exact Hw|by apply list_elem_of_filter]. }
  exists w. repeat split; try done.
  - apply (sort_sorted Selector.compareAttempts Spec.rankedBefore);
      [apply compareAttempts_before|apply compareAttempts_not_before|apply rankedBefore_trans].
  - intros a' b Ha' Hsa' Hlt ->.
    apply Hleast, rankedBefore_priority in Ha'; [lia|done].
Qed.

Lemma bestAttempt_first_ranked_success_witness :
  ∃ w,
    Selector.bestAttempt (registerAttempts Sample.lineAndSpline) = Some w
    ∧ head (Selector.successfulAttempts (registerAttempts Sample.lineAndSpline)) = Some w
    ∧ Selector.successfulAttempts (registerAttempts Sample.lineAndSpline)
      ≡ₚ filter (λ entry, Selector.succeeded entry = true)
           (registerAttempts Sample.lineAndSpline)
    ∧ StronglySorted Spec.rankedBefore
        (Selector.successfulAttempts (registerAttempts Sample.lineAndSpline))
    ∧ w ∈ registerAttempts Sample.lineAndSpline
    ∧ Selector.succeeded w = true
    ∧ (∀ b, b ∈ registerAttempts Sample.lineAndSpline →
            Selector.succeeded b = true → Spec.rankedBefore w b)
    ∧ (∀ a b, a ∈ registerAttempts Sample.lineAndSpline → Selector.succeeded a = true →
              at_priority a < at_priority b → w ≠ b).
Proof.
  apply (bestAttempt_first_ranked_success (registerAttempts Sample.lineAndSpline)).
  exists (mkAttempt "linear" (sf_linearResult Sample.lineAndSpline) 2 (Fin (Qabs (1 # 2)))).
  split; [|reflexivity].
  vm_compute. do 1 constructor. constructor.
Defined.

(** The sample stroke: the line wins although the spline has the smaller
    error score. *)
Example bestAttempt_prefers_line :
  at_label <$> Selector.bestAttempt (registerAttempts Sample.lineAndSpline) = Some "linear"%string
  ∧ at_error <$> Selector.bestAttempt (registerAttempts Sample.lineAndSpline)
    = Some (Fin (Qabs (1 # 2)))
  ∧ (at_error <$> registerAttempts Sample.lineAndSpline) !! 4%nat
    = Some (Fin (Qabs (1 # 100))).
Proof. repeat split. Qed.

(** ** No strategy fits *)

Lemma registerAttempts_entries fits :
  at_approximation <$> registerAttempts fits
  = [sf_piecewiseResult fits; sf_linearResult fits; sf_singleQuadraticResult fits;
     sf_singleCircleResult fits; sf_quadraticBSplineResult fits; sf_selectiveResult fits]
  ∧ Forall (λ entry, at_error entry = Selector.getErrorScore (at_approximation entry))
      (registerAttempts fits).
Proof. split; [reflexivity|]. unfold registerAttempts. simpl. repeat constructor. Qed.

Lemma getErrorScore_failed entry :
  Selector.succeeded entry = false →
  Selector.getErrorScore (at_approximation entry) = PosInf.
Proof.
  unfold Selector.succeeded. destruct (at_approximation entry) as [a|]; [|done].
  simpl. by intros ->.
Qed.

Lemma bestAttempt_none attempts :
  (∀ a, a ∈ attempts → Selector.succeeded a = false) →
  Selector.bestAttempt attempts = None.
Proof.
  intros Hall. unfold Selector.bestAttempt, Selector.successfulAttempts.
  replace (filter (λ entry, Selector.succeeded entry = true) attempts) with (@nil Attempt);
    [done|].
  symmetry. induction attempts as [|a l IH]; [done|].
  rewrite filter_cons. destruct (decide (Selector.succeeded a = true)) as [E|_].
  - rewrite Hall in E; [done|by left].
  - apply IH. intros b Hb. apply Hall. by right.
Qed.

Lemma linear_failed fits :
  (∀ a, a ∈ registerAttempts fits → Selector.succeeded a = false) →
  from_option ap_success false (sf_linearResult fits) = false.
Proof.
  intros Hall.
  destruct (registerAttempts_entries fits) as [Hentries _].
  assert ((at_approximation <$> registerAttempts fits) !! 1%nat = Some (sf_linearResult fits))
    as Hl by (by rewrite Hentries).
  rewrite list_lookup_fmap in Hl.
  destruct (registerAttempts fits !! 1%nat) as [entry|] eqn:E; [|done].
  simpl in Hl. injection Hl as Hl.
  apply list_elem_of_lookup_2, Hall in E. unfold Selector.succeeded in E.
  rewrite Hl in E. by destruct (sf_linearResult fits).
Qed.

Lemma registerAttempts_failed_linear fits :
  from_option ap_success false (sf_linearResult fits) = false →
  (at_label <$> registerAttempts fits
   = ["piecewiseLinear"; "linear"; "singleQuadratic"; "singleCircle";
      "quadraticBSpline"; "selectiveHybrid"]%string)
  ∧ at_priority <$> registerAttempts fits = [0; 2; 3; 4; 5; 7].
Proof.
  intros Hl. unfold registerAttempts. simpl.
  destruct (sf_linearResult fits) as [a|]; [|done].
  simpl in Hl. by rewrite Hl.
Qed.

(** C4.  When no attempt succeeded and advanced mode is off, the call
    returns a failure result whose diagnostics list one alternative per
    registered attempt, in registration order, each with that attempt's
    label, the type of its approximation result, its success flag, its
    priority and its error (reported as [null], the score of a failed
    attempt being [+Infinity]). *)
Theorem addHandDrawnCurve_no_fit (cm : CurveManager) (descriptor : HandDrawnDescriptor)
    (fits : StrokeFits) :
  (∀ a, a ∈ registerAttempts fits → Selector.succeeded a = false) →
  hd_useAdvancedMode descriptor = false →
  ∃ cm' result diagnostics alternatives,
    addHandDrawnCurve cm descriptor fits = (cm', Some result)
    ∧ r_success result = false
    ∧ r_curve result = None
    ∧ r_diagnostics result = Some diagnostics
    ∧ dg_selectedApproximator diagnostics = None
    ∧ dg_approximatorPriority diagnostics = None
    ∧ dg_alternatives diagnostics = Some alternatives
    ∧ Forall2 (λ entry alt,
                 ad_label alt = at_label entry
                 ∧ ad_type alt = at_approximation entry ≫= ap_type
                 ∧ ad_success alt = Selector.succeeded entry
                 ∧ ad_success alt = false
                 ∧ ad_priority alt = at_priority entry
                 ∧ ad_error alt = None)
        (registerAttempts fits) alternatives
    ∧ ad_label <$> alternatives
      = ["piecewiseLinear"; "linear"; "singleQuadratic"; "singleCircle";
         "quadraticBSpline"; "selectiveHybrid"]%string
    ∧ ad_priority <$> alternatives = [0; 2; 3; 4; 5; 7]
    ∧ ad_type <$> alternatives
      = [sf_piecewiseResult fits ≫= ap_type; sf_linearResult fits ≫= ap_type;
         sf_singleQuadraticResult fits ≫= ap_type; sf_singleCircleResult fits ≫= ap_type;
         sf_quadraticBSplineResult fits ≫= ap_type; sf_selectiveResult fits ≫= ap_type].
Proof.
  intros Hall Hadv.
  pose proof (bestAttempt_none _ Hall) as Hbest.
  destruct (registerAttempts_failed_linear fits (linear_failed fits Hall)) as [Hlabels Hprios].
  destruct (registerAttempts_entries fits) as [Hentries Herr].
  unfold addHandDrawnCurve. rewrite Hbest, Hadv.
  eexists _, _, _, (Selector.attemptDiagnostics (registerAttempts fits)).
  split; [reflexivity|]. split_and!; try reflexivity.
  - unfold Selector.attemptDiagnostics. apply Forall2_fmap_r, Forall_Forall2_diag.
    rewrite Forall_forall in Herr. apply Forall_forall. intros entry Hentry. simpl.
    pose proof (Hall _ Hentry) as Hfail.
    rewrite (Herr _ Hentry), (getErrorScore_failed _ Hfail). by rewrite Hfail.
  - unfold Selector.attemptDiagnostics. rewrite <- list_fmap_compose. exact Hlabels.
  - unfold Selector.attemptDiagnostics. rewrite <- list_fmap_compose. exact Hprios.
Qed.

Lemma addHandDrawnCurve_no_fit_witness :
  ∃ cm' result,
    addHandDrawnCurve emptyManager (Sample.stroke 0) Sample.nothingFits = (cm', Some result)
    ∧ r_success result = false
    ∧ (dg_alternatives <$> r_diagnostics result)
      = Some (Some (Selector.attemptDiagnostics (registerAttempts Sample.nothingFits))).
Proof.
  destruct (addHandDrawnCurve_no_fit emptyManager (Sample.stroke 0) Sample.nothingFits)
    as (cm' & result & diagnostics & alternatives & Hrun & Hfail & _ & Hd & _ & _ & Ha & _).
  - intros a Ha. revert a Ha. apply Forall_forall. repeat constructor.
  - reflexivity.
  - exists cm', result. split; [exact Hrun|]. split; [exact Hfail|].
    injection Hrun as _ <-. reflexivity.
Defined.

(** ** The identity invariant *)

Lemma renumber_lookup curves i :
  renumber curves !! i = fmap (λ curve, setId curve i) <$> curves !! i.
Proof. unfold renumber. by rewrite list_lookup_imap. Qed.








Lemma slot_assign (curves : list (option Curve)) i c : slot (assign i c curves) i = Some c.
Proof.
  unfold slot, assign. case_decide.
  - by rewrite list_lookup_insert_eq.
  - rewrite lookup_app_r by lia. rewrite lookup_app_r; rewrite length_replicate; [|lia].
    by replace (i - length curves - (i - length curves))%nat with 0%nat by lia.
Qed.

Lemma listCurve_knotCount c : ∃ knotCount, listCurve c = setKnotCountField c knotCount.
Proof.
  unfold listCurve.
  destruct (bool_decide _); [destruct (c_graphCurve c)|];
    first [by eexists | exists (c_knotCount c); by destruct c].
Qed.

Lemma listCurve_id c : c_id (listCurve c) = c_id c.
Proof. by destruct (listCurve_knotCount c) as [k ->]. Qed.

Lemma alter_insert_same {A} (f : A → A) (l : list A) i x :
  alter f i (<[i := x]> l) = <[i := f x]> l.
Proof.
  rewrite !list_insert_alter, list_alter_alter_eq. by apply list_alter_ext.
Qed.

Lemma alter_app_end (l : list (option Curve)) c (f : Curve → Curve) :
  alter (fmap f) (length l) (l ++ [Some c]) = l ++ [Some (f c)].
Proof. rewrite alter_app_r_alt by lia. by rewrite Nat.sub_diag. Qed.

Lemma alter_empty_slot (l : list (option Curve)) i (f : Curve → Curve) :
  slot l i = None → alter (fmap f) i l = l.
Proof.
  intros Hnone. apply list_eq. intros j.
  destruct (decide (i = j)) as [->|Hne]; [|by rewrite list_lookup_alter_ne].
  rewrite list_lookup_alter_eq. unfold slot in Hnone.
  by destruct (l !! j) as [[c|]|].
Qed.

Lemma addCurve_curves cm descriptor :
  ∃ curve, c_id curve = d_id descriptor
    ∧ cm_curves (addCurve cm descriptor)
      = match slot (cm_curves cm) (d_id descriptor) with
        | Some _ => <[d_id descriptor := Some curve]> (cm_curves cm)
        | None => cm_curves cm ++ [Some curve]
        end.
Proof.
  unfold addCurve, addCurveToList, modifySlot. cbv zeta.
  cbn [cm_curves withCurves addAction logged].
  set (curve := mkCurve _ _ _ _ _ _ _ _ _ _ _ _ _ _ _ _ _ _ _ _ _ _ _ _).
  destruct (slot (cm_curves cm) (d_id descriptor)) as [old|] eqn:E.
  - exists (listCurve curve). split; [by rewrite listCurve_id|].
    by rewrite alter_insert_same.
  - destruct (decide (d_id descriptor = length (cm_curves cm))) as [Hlen|Hne].
    + exists (listCurve curve). split; [by rewrite listCurve_id|].
      rewrite Hlen. apply alter_app_end.
    + exists curve. split; [done|].
      apply alter_empty_slot. unfold slot in *.
      destruct (decide (d_id descriptor < length (cm_curves cm))%nat).
      * by rewrite lookup_app_l.
      * rewrite lookup_ge_None_2; [done|]. rewrite length_app. simpl. lia.
Qed.


Lemma relist_lookup curves i : relist curves !! i = fmap listCurve <$> curves !! i.
Proof. unfold relist. by rewrite list_lookup_fmap. Qed.

Lemma relist_length curves : length (relist curves) = length curves.
Proof. unfold relist. by rewrite length_fmap. Qed.

Lemma slot_relist curves i : slot (relist curves) i = listCurve <$> slot curves i.
Proof. unfold slot. rewrite relist_lookup. by destruct (curves !! i) as [[c|]|]. Qed.

Lemma invariant_relist curves :
  Spec.identityInvariant curves → Spec.identityInvariant (relist curves).
Proof.
  intros Hinv i curve. rewrite relist_lookup.
  destruct (curves !! i) as [[c|]|] eqn:E; simpl; [|done..].
  intros [= <-]. rewrite listCurve_id. by apply Hinv.
Qed.



Ltac first_of_pair :=
  lazymatch goal with
  | |- context C [(?a, ?b).1] => let g := context C [a] in change g
  end.






(** ** Deleting a curve *)

Lemma slot_Some_lookup {A} (l : list (option A)) i x :
  slot l i = Some x ↔ l !! i = Some (Some x).
Proof. unfold slot. destruct (l !! i) as [[y|]|]; simpl; naive_solver. Qed.

Lemma slot_live_lt {A} (l : list (option A)) i : is_Some (slot l i) → (i < length l)%nat.
Proof. intros [x Hx]. apply slot_Some_lookup in Hx. by eapply lookup_lt_Some. Qed.

Lemma spliceOut_lookup {A} (l : list A) i j :
  (i < length l)%nat → spliceOut i l !! j = l !! Spec.sourceIndex i j.
Proof.
  intros Hi. unfold spliceOut, Spec.sourceIndex. case_decide.
  - rewrite lookup_app_l by (rewrite length_take; lia). by rewrite lookup_take_lt.
  - rewrite lookup_app_r by (rewrite length_take; lia).
    rewrite length_take, lookup_drop. f_equal. lia.
Qed.

Lemma spliceOut_length {A} (l : list A) i :
  (i < length l)%nat → length (spliceOut i l) = (length l - 1)%nat.
Proof. intros Hi. unfold spliceOut. rewrite length_app, length_take, length_drop. lia. Qed.


Lemma listCurve_path c : c_path (listCurve c) = c_path c.
Proof. by destruct (listCurve_knotCount c) as [k ->]. Qed.




Lemma deleteCurve_live cm i victim :
  slot (cm_curves cm) i = Some victim →
  cm_curves (deleteCurve cm i) = relist (renumber (spliceOut i (cm_curves cm)))
  ∧ nextCurveId (cm_settings (deleteCurve cm i)) = length (cm_curves (deleteCurve cm i))
  ∧ cm_log (deleteCurve cm i)
    = cm_log cm ++ [AddAction (ActDelete victim i (nextCurveId (cm_settings cm))) (cm_curves cm)].
Proof.
  intros Hv. unfold deleteCurve. rewrite Hv. split_and!; [done| |done].
  simpl. by rewrite relist_length.
Qed.


(** A [deleteCurve] on a curve that has its path: what it leaves, and how
    it ends. *)
Lemma deleteCurve_call_drawn cm i victim :
  slot (cm_curves cm) i = Some victim →
  is_Some (c_path victim) →
  let after := relist (renumber (spliceOut i (cm_curves cm))) in
  cm_curves (Call.deleteCurve cm i).1 = after
  ∧ cm_log (Call.deleteCurve cm i).1
    = cm_log cm ++ [AddAction (ActDelete victim i (nextCurveId (cm_settings cm))) (cm_curves cm)]
  ∧ nextCurveId (cm_settings (Call.deleteCurve cm i).1) = length after
  ∧ (Call.deleteCurve cm i).2 = (if hasPaths after then Returned else Thrown)
  ∧ ((Call.deleteCurve cm i).2 = Returned → (Call.deleteCurve cm i).1 = deleteCurve cm i).
Proof.
  intros Hv [path Hpath] after. unfold Call.deleteCurve, deleteCurve, redrawCurves.
  rewrite Hv, Hpath. cbv zeta.
  cbn [cm_curves cm_settings cm_log withCurves withSettings addAction logged updateCurveList].
  fold after. assert (length after = length (renumber (spliceOut i (cm_curves cm)))) as Hlen
    by apply relist_length.
  destruct (hasPaths after); simpl; by repeat split.
Qed.

(** A [deleteCurve] on a curve whose path is [null] ends in a [TypeError]
    right after the push. *)
Lemma deleteCurve_call_undrawn cm i victim :
  slot (cm_curves cm) i = Some victim →
  c_path victim = None →
  Call.deleteCurve cm i
  = (addAction (ActDelete victim i (nextCurveId (cm_settings cm))) cm, Thrown).
Proof. intros Hv Hpath. unfold Call.deleteCurve. by rewrite Hv, Hpath. Qed.




(** The specification's example: five curves, the one at index 2 deleted. *)
Example deleteCurve_two_of_five :
  Sample.ids Sample.fiveCurves = [Some 0; Some 1; Some 2; Some 3; Some 4]%nat
  ∧ Sample.ids (deleteCurve Sample.fiveCurves 2) = [Some 0; Some 1; Some 2; Some 3]%nat
  ∧ nextCurveId (cm_settings (deleteCurve Sample.fiveCurves 2)) = 4%nat.
Proof. repeat split. Qed.



(** ** Ids that name no live curve *)

(** The guarded operations return at once on such an id: nothing is
    written, nothing is pushed, no collaborator is called. *)
Lemma guarded_operations_ignore_missing_id cm id knotCount fit :
  slot (cm_curves cm) id = None →
  deleteCurve cm id = cm
  ∧ setKnotCount cm id knotCount fit = cm
  ∧ toggleCurveVisibility cm id = cm
  ∧ toggleDetailVisibility cm id = cm
  ∧ setCurveVisibility cm id true = cm
  ∧ setCurveDetailState cm id true = cm.
Proof.
  intros Hnone.
  unfold deleteCurve, setKnotCount, toggleCurveVisibility, toggleDetailVisibility,
    setCurveVisibility, setCurveDetailState.
  rewrite Hnone. split_and!; try done.
  rewrite (bool_decide_eq_false_2 (is_Some None)); [|by intros [? ?]].
  by rewrite andb_false_r.
Qed.

(** C9 at the failing input.  [reorderCurves] has no guard: asked to move
    the curve of id 5 in a store of two curves, it inserts an empty slot at
    index 0, shifts both curves up, rewrites their ids and pushes a
    [reorder] record. *)
Theorem reorderCurves_missing_id_is_not_ignored :
  slot (cm_curves Sample.twoCurves) 5 = None
  ∧ Sample.ids Sample.twoCurves = [Some 0; Some 1]%nat
  ∧ Sample.ids (reorderCurves Sample.twoCurves 5 0) = [None; Some 1; Some 2]%nat
  ∧ cm_curves (reorderCurves Sample.twoCurves 5 0) ≠ cm_curves Sample.twoCurves
  ∧ cm_log (reorderCurves Sample.twoCurves 5 0)
    = cm_log Sample.twoCurves
      ++ [AddAction (ActReorder 5 0) (cm_curves (reorderCurves Sample.twoCurves 5 0))].
Proof. split_and!; try reflexivity. discriminate. Qed.

(** An empty slot inside the bounds is moved like a curve, with the same
    effect on its neighbours. *)
Example reorderCurves_moves_empty_slot :
  let cm := (addHandDrawnCurve Sample.twoCurves (Sample.stroke 2) Sample.nothingFits).1 in
  Sample.ids cm = [Some 0; Some 1; None]%nat
  ∧ Sample.ids (reorderCurves cm 2 0) = [None; Some 1; Some 2]%nat.
Proof. split; reflexivity. Qed.

(** ** Knot-count recompute *)

Lemma compareKnots_before a b : sortCompare compareKnots a b = Lt → Spec.knotLe a b.
Proof.
  unfold sortCompare, compareKnots, Spec.knotLe. simpl. rewrite sign_difference.
  rewrite <- Qlt_alt. apply Qlt_le_weak.
Qed.

Lemma compareKnots_not_before a b : sortCompare compareKnots a b ≠ Lt → Spec.knotLe b a.
Proof.
  unfold sortCompare, compareKnots, Spec.knotLe. simpl. rewrite sign_difference.
  rewrite <- Qlt_alt. apply Qnot_lt_le.
Qed.

Lemma knotLe_trans a b c : Spec.knotLe a b → Spec.knotLe b c → Spec.knotLe a c.
Proof. unfold Spec.knotLe. apply Qle_trans. Qed.

Lemma customKnotsFor_spec curve knotCount :
  customKnotsFor curve knotCount
  ≡ₚ filter (λ k, pk_priority k < knotCount - 2) (c_preKnots curve)
  ∧ StronglySorted Spec.knotLe (customKnotsFor curve knotCount).
Proof.
  split.
  - apply sort_perm.
  - apply (sort_sorted compareKnots Spec.knotLe);
      [apply compareKnots_before|apply compareKnots_not_before|apply knotLe_trans].
Qed.

(** C5.  For a live curve that has its original points, with the graph
    calculator present, [setKnotCount] calls the quadratic B-spline
    approximator exactly once, on the curve's original points and the
    current domain, with a knot array that holds exactly the [preKnots]
    entries of priority strictly below [knotCount - 2] and is sorted by
    ascending knot position. *)
Theorem setKnotCount_custom_knots (cm : CurveManager) (curveId : nat) (knotCount : Z)
    (fit : KnotFit) (curve : Curve) (points : list Point) (graphCalculator : GraphCalculator) :
  slot (cm_curves cm) curveId = Some curve →
  c_originalPoints curve = Some points →
  cm_graphCalculator cm = Some graphCalculator →
  ∃ customKnots,
    cm_log (setKnotCount cm curveId knotCount fit)
    = cm_log cm ++ [ApproximateWithCustomKnots points customKnots (getDomain graphCalculator)]
    ∧ customKnots ≡ₚ filter (λ k, pk_priority k < knotCount - 2) (c_preKnots curve)
    ∧ (∀ k, k ∈ customKnots ↔ k ∈ c_preKnots curve ∧ pk_priority k < knotCount - 2)
    ∧ StronglySorted Spec.knotLe customKnots.
Proof.
  intros Hc Hp Hg. exists (customKnotsFor curve knotCount).
  destruct (customKnotsFor_spec curve knotCount) as [Hperm Hsorted].
  split_and!; [|done| |done].
  - unfold setKnotCount. rewrite Hc, Hp, Hg.
    destruct (kf_success fit); simpl; [|done].
    by destruct (c_graphCurve curve).
  - intros k. rewrite Hperm, list_elem_of_filter. tauto.
Qed.

Lemma setKnotCount_custom_knots_witness :
  ∃ customKnots,
    cm_log (setKnotCount Sample.twoCurves 0 4 (Sample.knotFit true))
    = cm_log Sample.twoCurves
      ++ [ApproximateWithCustomKnots [(0, 0)%Q; (1, 1)%Q] customKnots
            (mkDomain (-10) 10 (-10) 10)]
    ∧ customKnots
      ≡ₚ filter (λ k, pk_priority k < 4 - 2)
           [mkPreKnot (3 # 4) 1; mkPreKnot (1 # 4) 0; mkPreKnot (1 # 2) 2]
    ∧ (∀ k, k ∈ customKnots
            ↔ k ∈ [mkPreKnot (3 # 4) 1; mkPreKnot (1 # 4) 0; mkPreKnot (1 # 2) 2]
              ∧ pk_priority k < 4 - 2)
    ∧ StronglySorted Spec.knotLe customKnots.
Proof.
  exact (setKnotCount_custom_knots Sample.twoCurves 0 4 (Sample.knotFit true) _
           [(0, 0)%Q; (1, 1)%Q] (mkGraphCalculator (mkDomain (-10) 10 (-10) 10))
           eq_refl eq_refl eq_refl).
Defined.

(** On the sample curve, a knot count of 4 keeps the knots of priority 0
    and 1 and passes them in order of position. *)
Example setKnotCount_sample_call :
  cm_log (setKnotCount Sample.twoCurves 0 4 (Sample.knotFit true))
  = cm_log Sample.twoCurves
    ++ [ApproximateWithCustomKnots [(0, 0)%Q; (1, 1)%Q]
          [mkPreKnot (1 # 4) 0; mkPreKnot (3 # 4) 1] (mkDomain (-10) 10 (-10) 10)].
Proof. reflexivity. Qed.

(** C6.  When the approximator reports failure, [setKnotCount] leaves the
    whole curve array, and with it every field of the curve, as it was (the
    settings too); so the curve's equations, knot points or knot count can
    only differ afterwards if the approximator reported success.  On
    success, for a curve drawn on the graph, exactly these three fields are
    replaced. *)
Theorem setKnotCount_replaces_only_on_success (cm : CurveManager) (curveId : nat)
    (knotCount : Z) (fit : KnotFit) :
  let cm' := setKnotCount cm curveId knotCount fit in
  (kf_success fit = false →
   cm_curves cm' = cm_curves cm
   ∧ cm_settings cm' = cm_settings cm
   ∧ slot (cm_curves cm') curveId = slot (cm_curves cm) curveId)
  ∧ (∀ c c', slot (cm_curves cm) curveId = Some c →
             slot (cm_curves cm') curveId = Some c' →
             c_latexEquations c' ≠ c_latexEquations c
             ∨ c_knotPoints c' ≠ c_knotPoints c
             ∨ c_knotCount c' ≠ c_knotCount c →
             kf_success fit = true)
  ∧ (∀ c points graphCalculator graphCurve,
       kf_success fit = true →
       slot (cm_curves cm) curveId = Some c →
       c_originalPoints c = Some points →
       cm_graphCalculator cm = Some graphCalculator →
       c_graphCurve c = Some graphCurve →
       slot (cm_curves cm') curveId
       = Some (setKnotFit c (kf_latexEquations fit) (kf_knots fit) knotCount)
       ∧ ∀ j, j ≠ curveId → cm_curves cm' !! j = cm_curves cm !! j).
Proof.
  intros cm'.
  assert (kf_success fit = false → cm_curves cm' = cm_curves cm ∧ cm_settings cm' = cm_settings cm)
    as Hfail.
  { intros Hf. unfold cm', setKnotCount.
    destruct (slot (cm_curves cm) curveId) as [c|]; [|done].
    destruct (c_originalPoints c); [|done].
    destruct (cm_graphCalculator cm); [|done].
    by rewrite Hf. }
  split_and!.
  - intros Hf. destruct (Hfail Hf) as [Hc Hs]. by rewrite Hc.
  - intros c c' Hc Hc' Hdiff.
    destruct (kf_success fit) eqn:Hs; [done|].
    destruct (Hfail eq_refl) as [Heq _]. rewrite Heq, Hc in Hc'.
    injection Hc' as <-. by destruct Hdiff as [?|[?|?]].
  - intros c points graphCalculator graphCurve Hs Hc Hp Hg Hgc.
    unfold cm', setKnotCount. rewrite Hc, Hp, Hg, Hs, Hgc. simpl. split.
    + unfold slot. rewrite list_lookup_alter_eq.
      apply slot_Some_lookup in Hc. by rewrite Hc.
    + intros j Hj. by rewrite list_lookup_alter_ne.
Qed.

Lemma setKnotCount_replaces_only_on_success_witness :
  cm_curves (setKnotCount Sample.twoCurves 0 4 (Sample.knotFit false))
  = cm_curves Sample.twoCurves
  ∧ (c_knotCount <$> slot (cm_curves (setKnotCount Sample.twoCurves 0 4 (Sample.knotFit true))) 0)
    = Some 4.
Proof.
  split.
  - destruct (setKnotCount_replaces_only_on_success Sample.twoCurves 0 4 (Sample.knotFit false))
      as (Hfail & _).
    destruct (Hfail eq_refl) as (Hcurves & _). exact Hcurves.
  - destruct (setKnotCount_replaces_only_on_success Sample.twoCurves 0 4 (Sample.knotFit true))
      as (_ & _ & Hok).
    destruct (Hok _ [(0, 0)%Q; (1, 1)%Q] (mkGraphCalculator (mkDomain (-10) 10 (-10) 10))
                Sample.graphHandle eq_refl eq_refl eq_refl eq_refl eq_refl) as [Hslot _].
    rewrite Hslot. reflexivity.
Defined.


(** ** The winner inside [addHandDrawnCurve] *)

(** The six registered attempts have pairwise distinct priorities, so among
    them the ranking is settled by priority alone. *)
Lemma registerAttempts_priorities_distinct fits :
  NoDup (at_priority <$> registerAttempts fits).
Proof.
  unfold registerAttempts. simpl.
  destruct (match sf_linearResult fits with
            | Some a => ap_success a && bool_decide (ap_type a = Some "constant"%string)
            | None => false
            end);
    apply (bool_decide_unpack _); by vm_compute.
Qed.

Lemma bestAttempt_succeeded attempts best :
  Selector.bestAttempt attempts = Some best →
  best ∈ attempts ∧ ∃ a, at_approximation best = Some a ∧ ap_success a = true.
Proof.
  intros Hbest.
  assert (best ∈ Selector.successfulAttempts attempts) as Hin
    by (by apply head_Some_elem_of).
  unfold Selector.successfulAttempts in Hin.
  rewrite (sort_perm Selector.compareAttempts) in Hin.
  apply list_elem_of_filter in Hin as [Hs Hin]. split; [done|].
  unfold Selector.succeeded in Hs. destruct (at_approximation best) as [a|]; [|done].
  by exists a.
Qed.

(** With the graph calculator in place, the attempt picked by the ranking
    is the one the call reports and stores. *)
Lemma addHandDrawnCurve_reports_winner cm descriptor fits best graphCalculator :
  Selector.bestAttempt (registerAttempts fits) = Some best →
  cm_graphCalculator cm = Some graphCalculator →
  ∃ cm' result diagnostics,
    addHandDrawnCurve cm descriptor fits = (cm', Some result)
    ∧ r_success result = true
    ∧ r_diagnostics result = Some diagnostics
    ∧ dg_selectedApproximator diagnostics = Some (at_label best)
    ∧ dg_approximatorPriority diagnostics = Some (at_priority best)
    ∧ dg_alternatives diagnostics
      = Some (Selector.attemptDiagnostics (registerAttempts fits)).
Proof.
  intros Hbest Hg.
  destruct (bestAttempt_succeeded _ _ Hbest) as (_ & a & Ha & _).
  unfold addHandDrawnCurve. rewrite Hbest, Ha.
  replace (cm_graphCalculator _) with (Some graphCalculator)
    by (by destruct (slot (cm_curves cm) (hd_id descriptor))).
  eexists _, _, _. split; [reflexivity|]. by split_and!.
Qed.

(** The specification's example: the curve at index 0 of four moved to
    index 3. *)
Example reorderCurves_first_to_last :
  let four := foldl addCurve Sample.manager (map Sample.descriptor (seq 0 4)) in
  Sample.ids (reorderCurves four 0 3) = [Some 0; Some 1; Some 2; Some 3]%nat
  ∧ (c_color <$> slot (cm_curves (reorderCurves four 0 3)) 3)
    = (c_color <$> slot (cm_curves four) 0)
  ∧ length (cm_log (reorderCurves four 0 3)) = S (length (cm_log four)).
Proof. repeat split. Qed.

(** ** The list rebuild and the drawn paths *)

Lemma listCurve_setId c j : listCurve (setId c j) = setId (listCurve c) j.
Proof.
  unfold listCurve. cbn [c_type c_graphCurve c_knotCount c_latexEquations setId].
  destruct (bool_decide _); [destruct (c_graphCurve c)|]; done.
Qed.


Lemma relist_renumber curves : relist (renumber curves) = renumber (relist curves).
Proof.
  apply list_eq. intros i. rewrite relist_lookup, !renumber_lookup, relist_lookup.
  destruct (curves !! i) as [[c|]|]; simpl; [|done..]. by rewrite listCurve_setId.
Qed.

Lemma relist_spliceOut curves i : relist (spliceOut i curves) = spliceOut i (relist curves).
Proof. unfold relist, spliceOut. by rewrite fmap_app, fmap_take, fmap_drop. Qed.

Lemma relist_spliceIn curves i entry :
  relist (spliceIn i entry curves) = spliceIn i (listCurve <$> entry) (relist curves).
Proof. unfold relist, spliceIn. by rewrite fmap_app, fmap_cons, fmap_take, fmap_drop. Qed.



(** The store after [reorderCurves]: the move is done on the store, and
    the rebuild of the list follows it; as a rebuild and a move commute,
    this is the move done on the rebuilt store. *)
Lemma reorderCurves_curves cm fromId toId :
  let listed := relist (cm_curves cm) in
  cm_curves (reorderCurves cm fromId toId)
  = renumber (spliceIn toId (slot listed fromId) (spliceOut fromId listed)).
Proof.
  intros listed. unfold reorderCurves, updateCurveList. cbn [cm_curves withCurves addAction logged].
  by rewrite relist_renumber, relist_spliceIn, relist_spliceOut, <- slot_relist.
Qed.


Lemma hasPaths_app l1 l2 : hasPaths (l1 ++ l2) = hasPaths l1 && hasPaths l2.
Proof. apply forallb_app. Qed.

Lemma hasPaths_spliceOut curves i :
  hasPaths curves = true → hasPaths (spliceOut i curves) = true.
Proof.
  intros Hall. unfold spliceOut. rewrite <- (take_drop i curves) in Hall.
  rewrite hasPaths_app in *. apply andb_true_iff in Hall as [-> Hdrop]. simpl.
  rewrite <- (take_drop 1 (drop i curves)), drop_drop, hasPaths_app in Hdrop.
  apply andb_true_iff in Hdrop as [_ Hdrop]. by replace (S i) with (i + 1)%nat by lia.
Qed.



(** ** History records *)



Lemma toggleCurveVisibility_live cm id curve :
  slot (cm_curves cm) id = Some curve →
  toggleCurveVisibility cm id
  = modifySlot
      (addAction (ActToggleVisibility id (c_isHidden curve) (negb (c_isHidden curve))) cm)
      id (λ c, setIsHidden c (negb (c_isHidden curve))).
Proof.
  intros Hc. unfold toggleCurveVisibility, setCurveVisibility. rewrite Hc. simpl. rewrite Hc.
  by rewrite orb_false_r, negb_involutive.
Qed.

Lemma toggleDetailVisibility_live cm id curve :
  slot (cm_curves cm) id = Some curve →
  toggleDetailVisibility cm id
  = modifySlot
      (addAction (ActToggleDetails id (c_isDetailShown curve) (negb (c_isDetailShown curve))) cm)
      id (λ c, setIsDetailShown c (negb (c_isDetailShown curve))).
Proof.
  intros Hc. unfold toggleDetailVisibility, setCurveDetailState. rewrite Hc. simpl. rewrite Hc.
  assert (id < length (cm_curves cm))%nat as Hlt by (apply slot_live_lt; by eexists).
  rewrite (bool_decide_eq_true_2 _ Hlt).
  by rewrite (bool_decide_eq_true_2 (is_Some (Some curve))) by (by eexists).
Qed.


Lemma recordStyleChange_call cm newColor newSize :
  (Call.recordStyleChange cm newColor newSize).2 = Returned →
  (Call.recordStyleChange cm newColor newSize).1 = recordStyleChange cm newColor newSize.
Proof.
  unfold Call.recordStyleChange, recordStyleChange.
  destruct (selectCurveId (cm_settings cm)) as [id|]; [|done].
  destruct (slot (cm_curves cm) id) as [curve|]; [|done].
  destruct (Dyn.eqStr (c_color curve) newColor), (Dyn.eqNum (c_size curve) newSize),
    (c_path curve); done.
Qed.

Lemma deleteCurve_call cm id :
  (Call.deleteCurve cm id).2 = Returned → (Call.deleteCurve cm id).1 = deleteCurve cm id.
Proof.
  destruct (slot (cm_curves cm) id) as [victim|] eqn:Hv.
  - destruct (c_path victim) as [path|] eqn:Hpath.
    + by apply (deleteCurve_call_drawn cm id victim).
    + by rewrite (deleteCurve_call_undrawn cm id victim).
  - unfold Call.deleteCurve, deleteCurve. by rewrite Hv.
Qed.





(** * Further properties *)

(** ** The selector on the registered attempts *)

Lemma insertSorted_last {A} (comparefn : A → A → number) x l :
  Forall (λ y, sortCompare comparefn x y ≠ Lt) l →
  insertSorted comparefn x l = l ++ [x].
Proof.
  induction 1 as [|y l Hy Hl IH]; simpl; [done|].
  destruct (sortCompare comparefn x y); [by rewrite IH|done|by rewrite IH].
Qed.

Lemma StronglySorted_across {A} (R : A → A → Prop) l1 l2 x y :
  StronglySorted R (l1 ++ l2) → x ∈ l1 → y ∈ l2 → R x y.
Proof.
  induction l1 as [|z l1 IH]; simpl; intros Hs Hx Hy; [by apply not_elem_of_nil in Hx|].
  apply StronglySorted_inv in Hs as [Hs Hz].
  apply elem_of_cons in Hx as [->|Hx]; [|by apply IH].
  rewrite Forall_forall in Hz. apply Hz, elem_of_app. by right.
Qed.

Lemma StronglySorted_weaken {A} (R S : A → A → Prop) l :
  (∀ x y, R x y → S x y) → StronglySorted R l → StronglySorted S l.
Proof.
  intros HRS. induction 1 as [|x l Hl IH Hx]; constructor; [done|].
  eapply Forall_impl; [exact Hx|]. intros y. apply HRS.
Qed.

Lemma sort_from_fixed {A} (comparefn : A → A → number) acc l :
  StronglySorted (λ y x, sortCompare comparefn x y ≠ Lt) (acc ++ l) →
  foldl (λ acc x, insertSorted comparefn x acc) acc l = acc ++ l.
Proof.
  revert acc. induction l as [|x l IH]; intros acc Hs; simpl.
  - by rewrite app_nil_r.
  - rewrite insertSorted_last.
    + rewrite IH; rewrite <- app_assoc; done.
    + apply Forall_forall. intros y Hy.
      apply (StronglySorted_across _ _ _ _ _ Hs Hy). by left.
Qed.

Lemma sort_fixed {A} (comparefn : A → A → number) l :
  StronglySorted (λ y x, sortCompare comparefn x y ≠ Lt) l → sort comparefn l = l.
Proof. intros Hs. unfold sort. by rewrite sort_from_fixed. Qed.

Lemma compareAttempts_higher_priority a b :
  at_priority a < at_priority b → sortCompare Selector.compareAttempts b a ≠ Lt.
Proof.
  intros Hlt. unfold sortCompare, Selector.compareAttempts.
  destruct (Z.eqb_spec (at_priority b) (at_priority a)) as [?|_]; [lia|]. simpl.
  rewrite sign_ofZ. intros H. rewrite Z.compare_lt_iff in H. lia.
Qed.

Lemma registerAttempts_ascending fits :
  StronglySorted (λ a b, at_priority a < at_priority b) (registerAttempts fits).
Proof.
  unfold registerAttempts. simpl.
  destruct (match sf_linearResult fits with
            | Some a => ap_success a && bool_decide (ap_type a = Some "constant"%string)
            | None => false
            end);
    repeat (constructor; [|repeat (constructor; [simpl; lia|]); constructor]);
    constructor.
Qed.

Lemma StronglySorted_filter_keep {A} (R : A → A → Prop) (P : A → Prop)
    `{∀ x, Decision (P x)} l :
  StronglySorted R l → StronglySorted R (filter P l).
Proof.
  induction 1 as [|x l Hl IH Hx]; [constructor|].
  rewrite filter_cons. case_decide; [|done].
  constructor; [done|]. apply Forall_forall. intros y Hy.
  apply list_elem_of_filter in Hy as [_ Hy]. rewrite Forall_forall in Hx. by apply Hx.
Qed.

(** The ranking on the six registered attempts: the successes already
    stand in ranking order, so the winner is the first strategy, in the
    order piecewise linear, linear, single quadratic, single circle,
    quadratic B-spline, selective hybrid, that succeeded; the error scores
    have no part in the choice. *)
Theorem bestAttempt_is_first_success (fits : StrokeFits) :
  Selector.successfulAttempts (registerAttempts fits)
  = filter (λ entry, Selector.succeeded entry = true) (registerAttempts fits)
  ∧ Selector.bestAttempt (registerAttempts fits)
    = head (filter (λ entry, Selector.succeeded entry = true) (registerAttempts fits)).
Proof.
  assert (Selector.successfulAttempts (registerAttempts fits)
          = filter (λ entry, Selector.succeeded entry = true) (registerAttempts fits)) as Hs.
  { unfold Selector.successfulAttempts. apply sort_fixed.
    eapply StronglySorted_weaken;
      [|apply StronglySorted_filter_keep, registerAttempts_ascending].
    intros a b. apply compareAttempts_higher_priority. }
  split; [done|]. unfold Selector.bestAttempt. by rewrite Hs.
Qed.

(** ** Range of the error score *)

Lemma nearestEven_nonneg num den : 0 ≤ num → 0 < den → 0 ≤ Num.nearestEven num den.
Proof.
  intros Hnum Hden. unfold Num.nearestEven.
  assert (0 ≤ num / den) by (apply Z.div_pos; lia).
  destruct (2 * (num mod den) ?= den); [destruct (Z.even (num / den))|..]; lia.
Qed.

Lemma roundPos_positiveOrZero n d : Spec2.positiveOrZero (Num.roundPos n d).
Proof.
  unfold Num.roundPos.
  set (ex := Z.max (Num.exponent n d - 52) (-1074)).
  destruct (0 <=? ex) eqn:Hex.
  - apply Z.leb_le in Hex.
    assert (0 < 2 ^ ex) by (apply Z.pow_pos_nonneg; lia).
    assert (0 ≤ Num.nearestEven (Z.pos n) (Z.pos d * 2 ^ ex)) as Hm
      by (apply nearestEven_nonneg; lia).
    cbv zeta. destruct (2 ^ 1024 <=? _); [done|].
    simpl. unfold Qle. simpl. nia.
  - assert (0 < 2 ^ (- ex)) by (apply Z.pow_pos_nonneg; lia).
    assert (0 ≤ Num.nearestEven (Z.pos n * 2 ^ (- ex)) (Z.pos d)) as Hm
      by (apply nearestEven_nonneg; lia).
    cbv zeta. simpl. rewrite Qred_correct. unfold Qle. simpl. lia.
Qed.

Lemma round_positiveOrZero q : (0 <= q)%Q → Spec2.positiveOrZero (Num.round q).
Proof.
  intros Hq. unfold Num.round. destruct q as [[|n|n] d]; simpl.
  - done.
  - apply roundPos_positiveOrZero.
  - unfold Qle in Hq. simpl in Hq. lia.
Qed.

Lemma fadd_positiveOrZero x y :
  Spec2.positiveOrZero x → Spec2.positiveOrZero y → Spec2.positiveOrZero (Num.fadd x y).
Proof.
  destruct x as [a| | |], y as [b| | |]; simpl; try done.
  intros Ha Hb. apply round_positiveOrZero. lra.
Qed.

Lemma sum_positiveOrZero l acc :
  Forall (λ q, (0 <= q)%Q) l → Spec2.positiveOrZero acc →
  Spec2.positiveOrZero (foldl (λ sum val, Num.fadd sum (Fin val)) acc l).
Proof.
  intros Hl. revert acc. induction Hl as [|q l Hq Hl IH]; intros acc Hacc; simpl; [done|].
  apply IH. by apply fadd_positiveOrZero.
Qed.

Lemma fdiv_positiveOrZero x count :
  Spec2.positiveOrZero x → Spec2.positiveOrZero (Num.fdiv x (S count)).
Proof.
  destruct x as [a| | |]; simpl; try done.
  intros Ha. apply round_positiveOrZero. unfold Qdiv.
  apply Qmult_le_0_compat; [done|].
  apply Qinv_le_0_compat. unfold Qle. simpl. lia.
Qed.

(** The mean of a non-empty array of values at least 0 is a finite number
    at least 0, or [+Infinity] when the sum overflows. *)
Lemma mean_positiveOrZero q l :
  Forall (λ q, (0 <= q)%Q) (q :: l) → Spec2.positiveOrZero (Selector.mean (q :: l)).
Proof.
  intros Hl. unfold Selector.mean. cbn [length].
  apply fdiv_positiveOrZero, sum_positiveOrZero; [done|]. simpl. lra.
Qed.

Lemma round_not_NaN q : Num.round q ≠ NaN.
Proof.
  unfold Num.round. destruct (Qnum q) as [|n|n]; [done|..];
    pose proof (roundPos_positiveOrZero n (Qden q)) as H;
    by destruct (Num.roundPos n (Qden q)).
Qed.

Lemma fsub_one_NaN v : Num.fsub (Fin 1) v = NaN → v = NaN.
Proof.
  destruct v as [q| | |]; unfold Num.fsub; simpl; try done.
  intros H. by apply round_not_NaN in H.
Qed.

Lemma max0_NaN x : Num.max0 x = NaN → x = NaN.
Proof. destruct x as [q| | |]; simpl; try done. by destruct (Qle_bool q 0). Qed.

Lemma positiveOrZero_nonNegative x : Spec2.positiveOrZero x → Spec2.nonNegative x.
Proof. by destruct x. Qed.

Lemma segmentErrors_nonneg segs : Forall (λ q, (0 <= q)%Q) (Selector.segmentErrors segs).
Proof.
  rewrite segmentErrors_abs. apply Forall_fmap, Forall_forall.
  intros q _. apply Qabs_nonneg.
Qed.

Lemma max0_nonneg x : Spec2.nonNegative (Num.max0 x).
Proof.
  destruct x as [q| | |]; simpl; try done.
  destruct (Qle_bool q 0) eqn:E; simpl; [lra|].
  destruct (Qlt_le_dec 0 q) as [?|Hle]; [lra|].
  apply Qle_bool_iff in Hle. congruence.
Qed.

(** Whatever an approximator returns, the error score is never negative
    and never [-Infinity]: it is a finite number at least 0, [+Infinity],
    or [NaN] (which only a [NaN] [averageLinearity] can give).  So the error
    reported for an alternative is [null] or a finite number at least 0. *)
Theorem getErrorScore_range (approximation : option Approximation) :
  Spec2.nonNegative (Selector.getErrorScore approximation)
  ∧ (Selector.getErrorScore approximation = NaN →
     ∃ a, approximation = Some a ∧ ap_averageLinearity a = Some NaN)
  ∧ ∀ fits alt,
      alt ∈ Selector.attemptDiagnostics (registerAttempts fits) →
      ad_error alt = None ∨ ∃ q, ad_error alt = Some (Fin q) ∧ (0 <= q)%Q.
Proof.
  assert (∀ o, Spec2.nonNegative (Selector.getErrorScore o)) as Hrange.
  { intros [a|]; simpl; [|done].
    destruct (ap_success a); simpl; [|done].
    destruct (Selector.diagnosticsRms a) as [[r| | |]|]; simpl;
      try apply Qabs_nonneg;
      (destruct (ap_averageLinearity a) as [v|]; [apply max0_nonneg|]);
      (destruct (ap_segments a) as [segs|]; [|done]);
      pose proof (segmentErrors_nonneg segs) as Hs;
      (destruct (Selector.segmentErrors segs) as [|e errs]; [done|]);
      by apply positiveOrZero_nonNegative, mean_positiveOrZero. }
  split_and!.
  - apply Hrange.
  - destruct approximation as [a|]; simpl; [|done].
    intros Hnan. exists a. split; [done|].
    destruct (ap_success a); simpl in Hnan; [|done].
    destruct (ap_averageLinearity a) as [v|] eqn:Hal.
    + f_equal. apply fsub_one_NaN, max0_NaN.
      by destruct (Selector.diagnosticsRms a) as [[r| | |]|].
    + exfalso.
      destruct (ap_segments a) as [segs|];
        [|by destruct (Selector.diagnosticsRms a) as [[r| | |]|]].
      pose proof (segmentErrors_nonneg segs) as Hs.
      destruct (Selector.segmentErrors segs) as [|e errs];
        [by destruct (Selector.diagnosticsRms a) as [[r| | |]|]|].
      apply mean_positiveOrZero in Hs.
      destruct (Selector.diagnosticsRms a) as [[r| | |]|]; simpl in Hnan; try done;
        by rewrite Hnan in Hs.
  - intros fits alt Halt. unfold Selector.attemptDiagnostics in Halt.
    apply list_elem_of_fmap in Halt as (entry & -> & Hentry). simpl.
    destruct (registerAttempts_entries fits) as [_ Herr].
    rewrite Forall_forall in Herr. rewrite (Herr _ Hentry).
    pose proof (Hrange (at_approximation entry)) as Hn.
    destruct (Selector.getErrorScore (at_approximation entry)) as [q| | |]; simpl;
      [right; by exists q|by left..].
Qed.
Lemma getErrorScore_range_witness :
  ∃ alt,
    Selector.attemptDiagnostics (registerAttempts Sample.lineAndSpline) !! 1%nat = Some alt
    ∧ (ad_error alt = None ∨ ∃ q, ad_error alt = Some (Fin q) ∧ (0 <= q)%Q).
Proof.
  eexists. split; [reflexivity|].
  destruct (getErrorScore_range None) as (_ & _ & Halt).
  apply (Halt Sample.lineAndSpline).
  apply (list_elem_of_lookup_2 _ 1%nat). reflexivity.
Defined.

(** ** Stores up to renumbering *)









Lemma spliceIn_lookup {A} (l : list A) t x j :
  spliceIn t x l !! j
  = if decide (j < t `min` length l)%nat then l !! j
    else if decide (j = t `min` length l)%nat then Some x
    else l !! (j - 1)%nat.
Proof.
  unfold spliceIn. repeat case_decide.
  - rewrite lookup_app_l by (rewrite length_take; lia). apply lookup_take_lt. lia.
  - rewrite lookup_app_r by (rewrite length_take; lia).
    rewrite length_take. by replace (j - t `min` length l)%nat with 0%nat by lia.
  - rewrite lookup_app_r by (rewrite length_take; lia).
    rewrite length_take.
    destruct (j - t `min` length l)%nat as [|k] eqn:E; [lia|]. simpl.
    rewrite lookup_drop.
    destruct (decide (t ≤ length l)%nat).
    + f_equal. lia.
    + rewrite !lookup_ge_None_2; [done|lia..].
Qed.








(** ** Reordering *)






(** ** Dropping a dragged item into a gap *)





(** ** Adding and deleting *)

Lemma slot_past_end {A} (l : list (option A)) i : (length l ≤ i)%nat → slot l i = None.
Proof. intros Hi. unfold slot. by rewrite lookup_ge_None_2. Qed.

(** [addCurve] under the next free index. *)
Lemma addCurve_appended cm descriptor :
  d_id descriptor = length (cm_curves cm) →
  ∃ curve,
    c_id curve = d_id descriptor
    ∧ c_path curve = d_path descriptor
    ∧ cm_curves (addCurve cm descriptor) = cm_curves cm ++ [Some curve]
    ∧ slot (cm_curves (addCurve cm descriptor)) (d_id descriptor) = Some curve.
Proof.
  intros Hid. unfold addCurve, addCurveToList, modifySlot. cbv zeta.
  cbn [cm_curves withCurves addAction logged].
  set (curve := mkCurve _ _ _ _ _ _ _ _ _ _ _ _ _ _ _ _ _ _ _ _ _ _ _ _).
  rewrite (slot_past_end (cm_curves cm)) by lia.
  exists (listCurve curve). rewrite listCurve_id, listCurve_path, Hid, alter_app_end.
  split_and!; [by rewrite <- Hid|done|done|].
  unfold slot. by rewrite lookup_app_r, Nat.sub_diag.
Qed.



(** ** Toggling twice *)

Lemma alter_alter_restore (curves : list (option Curve)) i (f g : Curve → Curve) :
  (∀ c, slot curves i = Some c → g (f c) = c) →
  alter (fmap g) i (alter (fmap f) i curves) = curves.
Proof.
  intros Hgf. apply list_eq. intros j.
  destruct (decide (i = j)) as [->|Hne].
  - rewrite !list_lookup_alter_eq.
    destruct (curves !! j) as [[c|]|] eqn:E; simpl; [|done..].
    rewrite Hgf; [done|]. by apply slot_Some_lookup.
  - by rewrite !list_lookup_alter_ne.
Qed.

Lemma slot_alter_same (curves : list (option Curve)) i (f : Curve → Curve) :
  slot (alter (fmap f) i curves) i = f <$> slot curves i.
Proof.
  unfold slot. rewrite list_lookup_alter_eq. by destruct (curves !! i) as [[c|]|].
Qed.

(** Toggling the visibility, or the detail view, of a live curve twice
    puts the store back as it was; the history has received two records,
    the second the reverse of the first. *)
Theorem toggle_twice_restores (cm : CurveManager) (id : nat) (curve : Curve) :
  slot (cm_curves cm) id = Some curve →
  (cm_curves (toggleCurveVisibility (toggleCurveVisibility cm id) id) = cm_curves cm
   ∧ ∃ seen,
       cm_log (toggleCurveVisibility (toggleCurveVisibility cm id) id)
       = cm_log cm
         ++ [AddAction (ActToggleVisibility id (c_isHidden curve) (negb (c_isHidden curve)))
               (cm_curves cm);
             AddAction (ActToggleVisibility id (negb (c_isHidden curve)) (c_isHidden curve))
               seen])
  ∧ (cm_curves (toggleDetailVisibility (toggleDetailVisibility cm id) id) = cm_curves cm
     ∧ ∃ seen,
         cm_log (toggleDetailVisibility (toggleDetailVisibility cm id) id)
         = cm_log cm
           ++ [AddAction
                 (ActToggleDetails id (c_isDetailShown curve) (negb (c_isDetailShown curve)))
                 (cm_curves cm);
               AddAction
                 (ActToggleDetails id (negb (c_isDetailShown curve)) (c_isDetailShown curve))
                 seen]).
Proof.
  intros Hc. split.
  - rewrite (toggleCurveVisibility_live cm id curve Hc).
    set (cm1 := modifySlot _ _ _).
    assert (slot (cm_curves cm1) id = Some (setIsHidden curve (negb (c_isHidden curve))))
      as Hc1 by (unfold cm1; simpl; by rewrite slot_alter_same, Hc).
    rewrite (toggleCurveVisibility_live cm1 id _ Hc1). simpl. split.
    + apply alter_alter_restore. intros c Hc'. rewrite Hc in Hc'. injection Hc' as <-.
      rewrite negb_involutive. by destruct curve.
    + eexists. rewrite negb_involutive, <- app_assoc. reflexivity.
  - rewrite (toggleDetailVisibility_live cm id curve Hc).
    set (cm1 := modifySlot _ _ _).
    assert (slot (cm_curves cm1) id
            = Some (setIsDetailShown curve (negb (c_isDetailShown curve))))
      as Hc1 by (unfold cm1; simpl; by rewrite slot_alter_same, Hc).
    rewrite (toggleDetailVisibility_live cm1 id _ Hc1). simpl. split.
    + apply alter_alter_restore. intros c Hc'. rewrite Hc in Hc'. injection Hc' as <-.
      rewrite negb_involutive. by destruct curve.
    + eexists. rewrite negb_involutive, <- app_assoc. reflexivity.
Qed.

Lemma toggle_twice_restores_witness :
  cm_curves (toggleCurveVisibility (toggleCurveVisibility Sample.twoCurves 1) 1)
  = cm_curves Sample.twoCurves
  ∧ cm_curves (toggleDetailVisibility (toggleDetailVisibility Sample.twoCurves 1) 1)
    = cm_curves Sample.twoCurves.
Proof.
  destruct (toggle_twice_restores Sample.twoCurves 1 _ eq_refl) as [[Hv _] [Hd _]].
  split; [exact Hv|exact Hd].
Defined.

(** ** What a stroke touches *)

Lemma slot_insert_ne {A} (l : list (option A)) i j x :
  i ≠ j → slot (<[i := x]> l) j = slot l j.
Proof. intros Hne. unfold slot. by rewrite list_lookup_insert_ne. Qed.

Lemma slot_insert_same {A} (l : list (option A)) i x :
  (i < length l)%nat → slot (<[i := x]> l) i = x.
Proof. intros Hi. unfold slot. by rewrite list_lookup_insert_eq. Qed.

Lemma slot_alter_ne (curves : list (option Curve)) i j (f : Curve → Curve) :
  i ≠ j → slot (alter (fmap f) i curves) j = slot curves j.
Proof. intros Hne. unfold slot. by rewrite list_lookup_alter_ne. Qed.

Lemma slot_assign_ne (curves : list (option Curve)) i j c :
  i ≠ j → slot (assign i c curves) j = slot curves j.
Proof.
  intros Hne. unfold assign. case_decide; [by apply slot_insert_ne|].
  unfold slot. destruct (decide (j < length curves)%nat).
  - by rewrite lookup_app_l.
  - rewrite (lookup_ge_None_2 curves) by lia. rewrite lookup_app_r by lia.
    destruct (decide (j - length curves < i - length curves)%nat).
    + rewrite lookup_app_l by (rewrite length_replicate; lia).
      by rewrite lookup_replicate_2.
    + rewrite lookup_app_r by (rewrite length_replicate; lia).
      rewrite length_replicate.
      destruct (j - length curves - (i - length curves))%nat eqn:E; [lia|done].
Qed.

Lemma assign_length (curves : list (option Curve)) i c :
  length (assign i c curves) = (length curves `max` S i)%nat.
Proof.
  unfold assign. case_decide.
  - rewrite length_insert. lia.
  - rewrite !length_app, length_replicate. simpl. lia.
Qed.

Lemma addCurve_slots cm descriptor :
  is_Some (slot (cm_curves cm) (d_id descriptor)) →
  (∀ j, j ≠ d_id descriptor →
        slot (cm_curves (addCurve cm descriptor)) j = slot (cm_curves cm) j)
  ∧ length (cm_curves (addCurve cm descriptor)) = length (cm_curves cm)
  ∧ is_Some (slot (cm_curves (addCurve cm descriptor)) (d_id descriptor)).
Proof.
  intros [c Hc].
  destruct (addCurve_curves cm descriptor) as (curve & _ & ->). rewrite Hc.
  split_and!.
  - intros j Hj. by apply slot_insert_ne.
  - by rewrite length_insert.
  - rewrite slot_insert_same; [by eexists|]. apply slot_live_lt. by eexists.
Qed.

(** The manager after the placeholder step of [addHandDrawnCurve]. *)
Lemma reserve_slots cm descriptor settings :
  let reserved :=
    match slot (cm_curves cm) (hd_id descriptor) with
    | Some _ => cm
    | None =>
        withCurves cm
          (assign (hd_id descriptor) (placeholderFor descriptor settings) (cm_curves cm))
    end in
  (∀ j, j ≠ hd_id descriptor → slot (cm_curves reserved) j = slot (cm_curves cm) j)
  ∧ is_Some (slot (cm_curves reserved) (hd_id descriptor))
  ∧ cm_log reserved = cm_log cm
  ∧ cm_settings reserved = cm_settings cm
  ∧ cm_graphCalculator reserved = cm_graphCalculator cm
  ∧ (slot (cm_curves cm) (hd_id descriptor) = None →
     slot (cm_curves reserved) (hd_id descriptor) = Some (placeholderFor descriptor settings)).
Proof.
  intros reserved. unfold reserved.
  destruct (slot (cm_curves cm) (hd_id descriptor)) eqn:E.
  - split_and!; try done; rewrite E; by eexists.
  - split_and!; try done; simpl.
    + intros j Hj. by apply slot_assign_ne.
    + rewrite slot_assign. by eexists.
    + intros _. by rewrite slot_assign.
Qed.

Ltac name_added_curve cm2 Hlive cm3 Hadd Hnew Hl3 Hs3 Hg3 :=
  match goal with
  | |- context [addCurve cm2 ?d] =>
      destruct (addCurve_slots cm2 d Hlive) as (Hadd & _ & Hnew);
      cbn [d_id] in Hadd, Hnew;
      set (cm3 := addCurve cm2 d) in *;
      assert ((∃ action, cm_log cm3 = cm_log cm2 ++ [AddAction action (cm_curves cm3)])
              ∧ cm_settings cm3 = cm_settings cm2
              ∧ cm_graphCalculator cm3 = cm_graphCalculator cm2) as (Hl3 & Hs3 & Hg3)
        by (split_and!; [by eexists|done|done]);
      clearbody cm3
  end.

(** What [addHandDrawnCurve] does to the manager, by its result. *)
Lemma addHandDrawnCurve_effect cm descriptor fits :
  let out := addHandDrawnCurve cm descriptor fits in
  (∀ j, j ≠ hd_id descriptor → slot (cm_curves out.1) j = slot (cm_curves cm) j)
  ∧ cm_settings out.1 = cm_settings cm
  ∧ cm_graphCalculator out.1 = cm_graphCalculator cm
  ∧ match out.2 with
    | Some result =>
        if r_success result
        then (∃ seen, Spec.pushedOnce cm out.1 seen)
             ∧ is_Some (slot (cm_curves out.1) (hd_id descriptor))
        else cm_log out.1 = cm_log cm
             ∧ (slot (cm_curves cm) (hd_id descriptor) = None →
                is_Some (cm_graphCalculator cm) →
                slot (cm_curves out.1) (hd_id descriptor) = None)
    | None => cm_log out.1 = cm_log cm ∧ cm_graphCalculator cm = None
    end.
Proof.
  intros out. unfold out, addHandDrawnCurve.
  set (settings := default (cm_approximatorSettings cm) (hd_approximatorSettings descriptor)).
  pose proof (reserve_slots cm descriptor settings) as Hres. simpl in Hres.
  set (reserved :=
         match slot (cm_curves cm) (hd_id descriptor) with
         | Some _ => cm
         | None => withCurves cm (assign (hd_id descriptor)
                                    (placeholderFor descriptor settings) (cm_curves cm))
         end) in *.
  destruct Hres as (Hframe & Hlive & Hlog & Hset & Hgc & Hph). clearbody reserved.
  set (cm2 := withApproximatorSettings reserved (sf_resolvedSettings fits)).
  assert (cm_curves cm2 = cm_curves reserved ∧ cm_log cm2 = cm_log reserved
          ∧ cm_settings cm2 = cm_settings reserved
          ∧ cm_graphCalculator cm2 = cm_graphCalculator reserved) as (Hc2 & Hl2 & Hs2 & Hg2)
    by done.
  clearbody cm2. rewrite <- Hc2 in Hframe, Hlive, Hph. rewrite <- Hl2 in Hlog.
  rewrite <- Hs2 in Hset. rewrite <- Hg2 in Hgc. clear Hc2 Hl2 Hs2 Hg2.
  destruct (Selector.bestAttempt (registerAttempts fits)) as [best|] eqn:Hbest.
  - destruct (bestAttempt_succeeded _ _ Hbest) as (_ & approximation & -> & _).
    destruct (cm_graphCalculator cm2) eqn:Eg; cbn [fst snd r_success];
      [|split_and!; auto; congruence].
    name_added_curve cm2 Hlive cm3 Hadd Hnew Hl3 Hs3 Hg3.
    split_and!.
    + intros j Hj. simpl. rewrite slot_alter_ne by done. rewrite Hadd by done. by apply Hframe.
    + simpl. by rewrite Hs3.
    + simpl. by rewrite Hg3, <- Hgc.
    + destruct Hl3 as [action Hl3]. eexists _, action. simpl. rewrite Hl3, Hlog. reflexivity.
    + simpl. rewrite slot_alter_same. destruct Hnew as [c ->]. by eexists.
  - destruct (hd_useAdvancedMode descriptor).
    + destruct (cm_graphCalculator cm2) eqn:Eg; cbn [fst snd r_success].
      * name_added_curve cm2 Hlive cm3 Hadd Hnew Hl3 Hs3 Hg3.
        split_and!.
        -- intros j Hj. rewrite Hadd by done. by apply Hframe.
        -- by rewrite Hs3.
        -- by rewrite Hg3, <- Hgc.
        -- destruct Hl3 as [action Hl3]. eexists _, action. rewrite Hl3, Hlog. reflexivity.
        -- done.
      * split_and!; auto; [congruence|].
        intros _ [g Hg]. congruence.
    + cbn [fst snd r_success].
      destruct (slot (cm_curves cm2) (hd_id descriptor)) as [curve|] eqn:Hcurve;
        [|by destruct Hlive].
      case_match eqn:Hclean.
      * split_and!; auto.
        -- intros j Hj. simpl. rewrite slot_insert_ne by done. by apply Hframe.
        -- intros _ _. simpl. apply slot_insert_same. apply slot_live_lt. by eexists.
      * split_and!; auto.
        intros Hempty _. specialize (Hph Hempty). injection Hph as ->. done.
Qed.




(** A stroke that no strategy fits, drawn with advanced mode off under an id
    that names no curve, leaves no curve behind: every slot reads as before
    and nothing is pushed to the history.  The array itself may have grown,
    the slot of the id being left empty. *)
Theorem addHandDrawnCurve_failure_leaves_no_curve (cm : CurveManager)
    (descriptor : HandDrawnDescriptor) (fits : StrokeFits) :
  slot (cm_curves cm) (hd_id descriptor) = None →
  Selector.bestAttempt (registerAttempts fits) = None →
  hd_useAdvancedMode descriptor = false →
  let cm' := (addHandDrawnCurve cm descriptor fits).1 in
  (∀ j, slot (cm_curves cm') j = slot (cm_curves cm) j)
  ∧ length (cm_curves cm') = (length (cm_curves cm) `max` S (hd_id descriptor))%nat
  ∧ cm_log cm' = cm_log cm
  ∧ cm_settings cm' = cm_settings cm
  ∧ r_success <$> (addHandDrawnCurve cm descriptor fits).2 = Some false.
Proof.
  intros Hempty Hbest Hadv cm'. unfold cm', addHandDrawnCurve.
  rewrite Hempty, Hbest, Hadv.
  set (placeholder := placeholderFor descriptor _).
  repeat first_of_pair.
  change (cm_curves (withApproximatorSettings
                       (withCurves cm (assign (hd_id descriptor) placeholder (cm_curves cm)))
                       (sf_resolvedSettings fits)))
    with (assign (hd_id descriptor) placeholder (cm_curves cm)).
  rewrite slot_assign.
  replace (bool_decide (c_graphCurve placeholder = None)) with true by done.
  rewrite orb_true_l.
  split_and!; try done.
  - intros j. simpl. destruct (decide (j = hd_id descriptor)) as [->|Hne].
    + rewrite slot_insert_same, Hempty; [done|]. rewrite assign_length. lia.
    + rewrite slot_insert_ne by done. by apply slot_assign_ne.
  - simpl. by rewrite length_insert, assign_length.
Qed.

Lemma addHandDrawnCurve_failure_leaves_no_curve_witness :
  Sample.ids (addHandDrawnCurve Sample.twoCurves (Sample.stroke 2) Sample.nothingFits).1
  = [Some 0; Some 1; None]%nat
  ∧ cm_log (addHandDrawnCurve Sample.twoCurves (Sample.stroke 2) Sample.nothingFits).1
    = cm_log Sample.twoCurves.
Proof.
  destruct (addHandDrawnCurve_failure_leaves_no_curve Sample.twoCurves (Sample.stroke 2)
              Sample.nothingFits eq_refl eq_refl eq_refl) as (_ & _ & Hlog & _).
  split; [reflexivity|exact Hlog].
Defined.

(** ** The curve a stroke leaves in the store *)

Lemma slot_app_end {A} (l : list (option A)) x : slot (l ++ [x]) (length l) = x.
Proof. unfold slot. rewrite lookup_app_r by lia. by rewrite Nat.sub_diag. Qed.

(** What [addCurve] leaves in the slot of the descriptor's id. *)
Lemma addCurve_slot cm descriptor :
  Spec.opAdmissible cm (OpAddCurve descriptor) →
  ∃ curve,
    slot (cm_curves (addCurve cm descriptor)) (d_id descriptor) = Some curve
    ∧ c_id curve = d_id descriptor
    ∧ c_type curve = d_type descriptor
    ∧ c_color curve = d_color descriptor
    ∧ c_size curve = d_size descriptor
    ∧ c_isHidden curve = false
    ∧ c_isDetailShown curve = true
    ∧ c_graphCurve curve = d_graphCurve descriptor
    ∧ c_latexEquations curve = default [] (d_latexEquations descriptor)
    ∧ c_preKnots curve = default [] (d_preKnots descriptor)
    ∧ c_originalPoints curve = d_originalPoints descriptor.
Proof.
  intros Hadm. unfold addCurve, addCurveToList, modifySlot. cbv zeta.
  cbn [cm_curves withCurves addAction logged].
  set (curve := mkCurve _ _ _ _ _ _ _ _ _ _ _ _ _ _ _ _ _ _ _ _ _ _ _ _).
  rewrite slot_alter_same.
  assert (slot match slot (cm_curves cm) (d_id descriptor) with
               | Some _ => <[d_id descriptor:=Some curve]> (cm_curves cm)
               | None => cm_curves cm ++ [Some curve]
               end (d_id descriptor) = Some curve) as ->.
  { destruct (slot (cm_curves cm) (d_id descriptor)) eqn:E.
    + apply slot_insert_same. apply slot_live_lt. by eexists.
    + destruct Hadm as [[? ?]|Hlen]; [simpl in *; congruence|].
      rewrite Hlen. apply slot_app_end. }
  exists (listCurve curve). split; [done|].
  destruct (listCurve_knotCount curve) as [k ->]. by split_and!.
Qed.

(** The curve behind a successful fit. *)
Lemma addHandDrawnCurve_winner_slot cm descriptor fits best graphCalculator :
  Selector.bestAttempt (registerAttempts fits) = Some best →
  cm_graphCalculator cm = Some graphCalculator →
  ∃ approximation curve,
    at_approximation best = Some approximation
    ∧ r_success <$> (addHandDrawnCurve cm descriptor fits).2 = Some true
    ∧ slot (cm_curves (addHandDrawnCurve cm descriptor fits).1) (hd_id descriptor) = Some curve
    ∧ c_id curve = hd_id descriptor
    ∧ c_type curve = ap_type approximation
    ∧ c_color curve = hd_color descriptor
    ∧ c_size curve = hd_size descriptor
    ∧ c_isHidden curve = false
    ∧ c_graphCurve curve = Some (sf_graphCurve fits)
    ∧ c_latexEquations curve = default [] (ap_latexEquations approximation)
    ∧ c_preKnots curve = default [] (ap_preKnots approximation)
    ∧ c_originalPoints curve = Some (hd_domainPath descriptor)
    ∧ c_knotPoints curve = Some (default [] (ap_knots approximation))
    ∧ c_selectedApproximator curve = Some (at_label best)
    ∧ c_approximatorPriority curve = Some (at_priority best).
Proof.
  intros Hbest Hg.
  destruct (bestAttempt_succeeded _ _ Hbest) as (_ & a & Ha & _). exists a.
  unfold addHandDrawnCurve. rewrite Hbest, Ha.
  set (settings := default (cm_approximatorSettings cm) (hd_approximatorSettings descriptor)).
  pose proof (reserve_slots cm descriptor settings) as Hres. simpl in Hres.
  set (reserved :=
         match slot (cm_curves cm) (hd_id descriptor) with
         | Some _ => cm
         | None => withCurves cm (assign (hd_id descriptor)
                                    (placeholderFor descriptor settings) (cm_curves cm))
         end) in *.
  destruct Hres as (_ & Hlive & _ & _ & Hgc & _). clearbody reserved.
  set (cm2 := withApproximatorSettings reserved (sf_resolvedSettings fits)).
  assert (cm_curves cm2 = cm_curves reserved
          ∧ cm_graphCalculator cm2 = cm_graphCalculator reserved) as (Hc2 & Hg2) by done.
  clearbody cm2. rewrite <- Hc2 in Hlive. rewrite <- Hg2, Hg in Hgc. clear Hc2 Hg2.
  rewrite Hgc. cbn [fst snd r_success].
  match goal with
  | |- context [addCurve cm2 ?d] =>
      destruct (addCurve_slot cm2 d (or_introl Hlive))
        as (curve & Hslot & Hid & Hty & Hco & Hsz & Hh & _ & Hgr & Hl & Hp & _);
      cbn [d_id d_type d_color d_size d_graphCurve d_latexEquations d_preKnots]
        in Hslot, Hid, Hty, Hco, Hsz, Hgr, Hl, Hp;
      set (cm3 := addCurve cm2 d) in *; clearbody cm3
  end.
  eexists. split; [done|]. split; [done|]. split.
  { change (cm_curves (modifySlot cm3 ?i ?f)) with (alter (fmap f) i (cm_curves cm3)).
    rewrite slot_alter_same, Hslot. reflexivity. }
  by split_and!.
Qed.

(** ** Ending a stroke *)

(** A stroke of at least two points that some strategy fits, ended with the
    graph calculator present, is stored under the id [settings.nextCurveId]
    had, with the pen's colour and size and the drawn points, visible and
    tagged with the winning strategy; the counter goes up by one, the
    drawing state is reset, and no other slot changes. *)
Theorem endDrawing_stores_stroke (ui : Drawing) (cm : CurveManager) (answers : DrawingAnswers)
    (path : list Point) (best : Attempt) (graphCalculator : GraphCalculator) :
  isDrawing ui = true →
  currentDomainPath ui = Some path →
  (2 ≤ length path)%nat →
  cm_graphCalculator cm = Some graphCalculator →
  Selector.bestAttempt (registerAttempts (da_fits answers)) = Some best →
  let id := nextCurveId (cm_settings cm) in
  let out := endDrawing ui cm answers in
  out.1 = mkDrawing false (Some [])
  ∧ nextCurveId (cm_settings out.2) = S id
  ∧ (∀ j, j ≠ id → slot (cm_curves out.2) j = slot (cm_curves cm) j)
  ∧ ∃ curve,
      slot (cm_curves out.2) id = Some curve
      ∧ c_id curve = id
      ∧ c_originalPoints curve = Some path
      ∧ c_color curve = currentColor (cm_settings cm)
      ∧ c_size curve = currentSize (cm_settings cm)
      ∧ c_isHidden curve = false
      ∧ c_graphCurve curve = Some (sf_graphCurve (da_fits answers))
      ∧ c_selectedApproximator curve = Some (at_label best).
Proof.
  intros Hdrawing Hpath Hlong Hg Hbest id out. unfold out, endDrawing.
  rewrite Hdrawing, Hpath. rewrite bool_decide_eq_false_2 by lia. cbn [negb].
  set (descriptor := {| hd_id := nextCurveId (cm_settings cm) |}).
  destruct (addHandDrawnCurve_effect cm descriptor (da_fits answers))
    as (Hframe & Hset & _ & _).
  destruct (addHandDrawnCurve_winner_slot cm descriptor (da_fits answers) best
              graphCalculator Hbest Hg)
    as (a & curve & _ & Hok & Hslot & Hid & _ & Hco & Hsz & Hh & Hgr & _ & _ & Hpts & _ & Hsel & _).
  destruct (addHandDrawnCurve cm descriptor (da_fits answers)) as [cm' [result|]];
    [|done].
  cbn [fst snd] in *. injection Hok as ->.
  split_and!; try done.
  - simpl. by rewrite Hset.
  - by exists curve.
Qed.

Lemma endDrawing_stores_stroke_witness :
  let out :=
    endDrawing (mkDrawing true (Some [(0, 0)%Q; (1, 1)%Q])) Sample.manager
      (mkDrawingAnswers false None Sample.lineAndSpline) in
  nextCurveId (cm_settings out.2) = 1%nat
  ∧ ∃ curve, slot (cm_curves out.2) 0 = Some curve ∧ c_id curve = 0%nat.
Proof.
  intros out.
  destruct (endDrawing_stores_stroke (mkDrawing true (Some [(0, 0)%Q; (1, 1)%Q]))
              Sample.manager (mkDrawingAnswers false None Sample.lineAndSpline)
              [(0, 0)%Q; (1, 1)%Q] _ _ eq_refl eq_refl (le_n 2) eq_refl eq_refl)
    as (_ & Hnext & _ & curve & Hslot & Hid & _).
  split; [exact Hnext|]. exists curve. split; [exact Hslot|exact Hid].
Defined.

(** ** The next id names an empty slot *)

Lemma slot_renumber_None curves i : slot curves i = None → slot (renumber curves) i = None.
Proof.
  unfold slot. rewrite renumber_lookup. by destruct (curves !! i) as [[c|]|].
Qed.

Lemma endDrawing_fresh ui cm answers :
  Spec2.freshAbove cm →
  is_Some (cm_graphCalculator cm) →
  Spec2.freshAbove (endDrawing ui cm answers).2.
Proof.
  intros Hfresh Hg. unfold endDrawing.
  destruct (isDrawing ui); [|done]. cbn [negb].
  destruct (currentDomainPath ui) as [path|]; [|done].
  case_bool_decide; [done|].
  set (descriptor := {| hd_id := nextCurveId (cm_settings cm) |}).
  destruct (addHandDrawnCurve_effect cm descriptor (da_fits answers))
    as (Hframe & Hset & _ & Hout).
  destruct (addHandDrawnCurve cm descriptor (da_fits answers)) as [cm' [result|]];
    cbn [fst snd hd_id descriptor] in *.
  - destruct (r_success result).
    + intros i Hi. simpl in Hi |- *. rewrite Hset in Hi.
      rewrite Hframe by lia. apply Hfresh. lia.
    + intros i Hi. cbn [snd] in Hi |- *. rewrite Hset in Hi.
      destruct (decide (i = nextCurveId (cm_settings cm))) as [->|Hne].
      * apply Hout; [|done]. by apply Hfresh.
      * rewrite Hframe by done. by apply Hfresh.
  - destruct Hout as [_ Hnone]. rewrite Hnone in Hg. by destruct Hg.
Qed.

Lemma deleteCurve_fresh cm id : Spec2.freshAbove cm → Spec2.freshAbove (deleteCurve cm id).
Proof.
  intros Hfresh. destruct (slot (cm_curves cm) id) as [victim|] eqn:Hv.
  - destruct (deleteCurve_live cm id victim Hv) as (_ & Hnext & _).
    intros i Hi. apply slot_past_end. lia.
  - unfold deleteCurve. by rewrite Hv.
Qed.

Lemma reorderCurves_fresh cm fromId toId :
  Spec2.freshAbove cm →
  is_Some (slot (cm_curves cm) fromId) →
  (toId < nextCurveId (cm_settings cm))%nat →
  Spec2.freshAbove (reorderCurves cm fromId toId).
Proof.
  intros Hfresh Hlive Hto i Hi.
  change (nextCurveId (cm_settings (reorderCurves cm fromId toId)))
    with (nextCurveId (cm_settings cm)) in Hi.
  assert (fromId < length (cm_curves cm))%nat as Hlen by by apply slot_live_lt.
  assert (fromId < nextCurveId (cm_settings cm))%nat as Hfrom.
  { destruct (decide (fromId < nextCurveId (cm_settings cm))%nat) as [|Hge]; [done|].
    rewrite Hfresh in Hlive by lia. by destruct Hlive. }
  rewrite reorderCurves_curves. cbv zeta. apply slot_renumber_None.
  assert (length (relist (cm_curves cm)) = length (cm_curves cm)) as Hrel
    by apply relist_length.
  unfold slot at 1. rewrite spliceIn_lookup.
  rewrite spliceOut_length by lia.
  repeat case_decide; try lia.
  rewrite spliceOut_lookup by lia. unfold Spec.sourceIndex.
  case_decide; [lia|]. replace (S (i - 1)) with i by lia.
  fold (slot (relist (cm_curves cm)) i). rewrite slot_relist, Hfresh; [done|lia].
Qed.

(** When no curve sits at or above [settings.nextCurveId], the slot the
    next stroke will use is empty, and this stays so after [endDrawing]
    (with the graph calculator present), [deleteCurve], [clearCanvas], and a
    [reorderCurves] of a live curve to a target below the counter. *)
Theorem nextCurveId_stays_fresh (cm : CurveManager) :
  Spec2.freshAbove cm →
  slot (cm_curves cm) (nextCurveId (cm_settings cm)) = None
  ∧ (∀ ui answers,
       is_Some (cm_graphCalculator cm) → Spec2.freshAbove (endDrawing ui cm answers).2)
  ∧ (∀ id, Spec2.freshAbove (deleteCurve cm id))
  ∧ Spec2.freshAbove (clearCanvas cm)
  ∧ (∀ fromId toId,
       is_Some (slot (cm_curves cm) fromId) →
       (toId < nextCurveId (cm_settings cm))%nat →
       Spec2.freshAbove (reorderCurves cm fromId toId)).
Proof.
  intros Hfresh. split_and!.
  - by apply Hfresh.
  - intros ui answers Hg. by apply endDrawing_fresh.
  - intros id. by apply deleteCurve_fresh.
  - by intros i Hi.
  - intros fromId toId. by apply reorderCurves_fresh.
Qed.

Lemma nextCurveId_stays_fresh_witness :
  Spec2.freshAbove
    (endDrawing (mkDrawing true (Some [(0, 0)%Q; (1, 1)%Q])) Sample.manager
       (mkDrawingAnswers false None Sample.nothingFits)).2.
Proof.
  assert (Spec2.freshAbove Sample.manager) as Hfresh by (by intros i Hi).
  destruct (nextCurveId_stays_fresh Sample.manager Hfresh) as (_ & Hdraw & _).
  apply Hdraw. by eexists.
Defined.

(** ** Knot requests *)

Lemma setKnotCount_slot cm curveId knotCount fit curve points graphCalculator :
  slot (cm_curves cm) curveId = Some curve →
  c_originalPoints curve = Some points →
  cm_graphCalculator cm = Some graphCalculator →
  cm_graphCalculator (setKnotCount cm curveId knotCount fit) = Some graphCalculator
  ∧ cm_log (setKnotCount cm curveId knotCount fit)
    = cm_log cm
      ++ [ApproximateWithCustomKnots points (customKnotsFor curve knotCount)
            (getDomain graphCalculator)]
  ∧ ∃ curve',
      slot (cm_curves (setKnotCount cm curveId knotCount fit)) curveId = Some curve'
      ∧ c_preKnots curve' = c_preKnots curve
      ∧ c_originalPoints curve' = Some points
      ∧ c_id curve' = c_id curve
      ∧ (kf_success fit = true → is_Some (c_graphCurve curve) →
         c_knotCount curve' = knotCount
         ∧ c_knotPoints curve' = Some (kf_knots fit)
         ∧ c_latexEquations curve' = kf_latexEquations fit)
      ∧ (kf_success fit = false → curve' = curve).
Proof.
  intros Hc Hp Hg. unfold setKnotCount. rewrite Hc, Hp, Hg.
  destruct (kf_success fit); cbn [negb].
  - destruct (c_graphCurve curve) as [graphCurve|] eqn:Hgc.
    + split_and!; [done|done|]. eexists. split.
      { change (cm_curves (modifySlot ?m ?i ?f)) with (alter (fmap f) i (cm_curves m)).
        rewrite slot_alter_same. cbn [cm_curves logged]. rewrite Hc. reflexivity. }
      by split_and!.
    + split_and!; [done|done|]. exists curve. split_and!; done.
  - split_and!; [done|done|]. exists curve. by split_and!.
Qed.

(** The knots requested from the approximator depend on the curve's
    [preKnots] and on the count asked for, not on earlier requests: after a
    first [setKnotCount], whatever its outcome, a second one on the same
    curve passes the same points and the same knots as it would have
    passed on the curve as first fitted. *)
Theorem setKnotCount_request_forgets_previous (cm : CurveManager) (curveId : nat)
    (first second : Z) (fit fit' : KnotFit) (curve : Curve) (points : list Point)
    (graphCalculator : GraphCalculator) :
  slot (cm_curves cm) curveId = Some curve →
  c_originalPoints curve = Some points →
  cm_graphCalculator cm = Some graphCalculator →
  cm_log (setKnotCount (setKnotCount cm curveId first fit) curveId second fit')
  = cm_log cm
    ++ [ApproximateWithCustomKnots points (customKnotsFor curve first)
          (getDomain graphCalculator);
        ApproximateWithCustomKnots points (customKnotsFor curve second)
          (getDomain graphCalculator)].
Proof.
  intros Hc Hp Hg.
  destruct (setKnotCount_slot cm curveId first fit curve points graphCalculator Hc Hp Hg)
    as (Hg1 & Hl1 & curve' & Hc1 & Hpre & Hp1 & _).
  destruct (setKnotCount_slot _ curveId second fit' curve' points graphCalculator Hc1 Hp1 Hg1)
    as (_ & Hl2 & _).
  rewrite Hl2, Hl1, <- (assoc_L (++)). unfold customKnotsFor. by rewrite Hpre.
Qed.

Lemma setKnotCount_request_forgets_previous_witness :
  cm_log (setKnotCount (setKnotCount Sample.twoCurves 0 3 (Sample.knotFit true)) 0 5
            (Sample.knotFit false))
  = cm_log Sample.twoCurves
    ++ [ApproximateWithCustomKnots [(0, 0)%Q; (1, 1)%Q]
          [mkPreKnot (1 # 4) 0] (mkDomain (-10) 10 (-10) 10);
        ApproximateWithCustomKnots [(0, 0)%Q; (1, 1)%Q]
          [mkPreKnot (1 # 4) 0; mkPreKnot (1 # 2) 2; mkPreKnot (3 # 4) 1]
          (mkDomain (-10) 10 (-10) 10)].
Proof.
  exact (setKnotCount_request_forgets_previous Sample.twoCurves 0 3 5 (Sample.knotFit true)
           (Sample.knotFit false) _ [(0, 0)%Q; (1, 1)%Q]
           (mkGraphCalculator (mkDomain (-10) 10 (-10) 10)) eq_refl eq_refl eq_refl).
Defined.

Lemma filter_weaken_submseteq {A} (P Q : A → Prop)
    `{∀ x, Decision (P x)} `{∀ x, Decision (Q x)} (l : list A) :
  (∀ x, P x → Q x) → filter P l ⊆+ filter Q l.
Proof.
  intros HPQ. induction l as [|x l IH]; [done|]. rewrite !filter_cons.
  destruct (decide (P x)), (decide (Q x));
    [by apply submseteq_skip|naive_solver|by apply submseteq_cons|done].
Qed.

(** Raising the knot count only adds knots to the request: the knots passed
    for a smaller count are among those passed for a larger one.  When the
    priorities of the [preKnots] are pairwise distinct and not negative, a
    count of [k] requests at most [k - 2] knots, hence none for a count of 2
    or less. *)
Theorem customKnotsFor_grows_with_count (curve : Curve) (k k' : Z) :
  (k ≤ k' → customKnotsFor curve k ⊆+ customKnotsFor curve k')
  ∧ (NoDup (pk_priority <$> c_preKnots curve) →
     (∀ p, p ∈ c_preKnots curve → 0 ≤ pk_priority p) →
     (length (customKnotsFor curve k) ≤ Z.to_nat (k - 2))%nat).
Proof.
  split.
  - intros Hk. unfold customKnotsFor. rewrite !sort_perm.
    apply filter_weaken_submseteq. intros p Hp. lia.
  - intros Hdistinct Hpos. unfold customKnotsFor. rewrite sort_perm.
    set (kept := filter (λ p, pk_priority p < k - 2) (c_preKnots curve)).
    assert (pk_priority <$> kept ⊆+ Z.of_nat <$> seq 0 (Z.to_nat (k - 2))) as Hsub;
      [|apply submseteq_length in Hsub; by rewrite !length_fmap, length_seq in Hsub].
    apply NoDup_submseteq.
    + eapply sublist_NoDup; [exact Hdistinct|].
      apply fmap_sublist, sublist_filter.
    + intros x Hx. apply list_elem_of_fmap in Hx as (p & -> & Hp).
      apply list_elem_of_filter in Hp as [Hlt Hin]. specialize (Hpos p Hin).
      apply list_elem_of_fmap. exists (Z.to_nat (pk_priority p)). split; [lia|].
      apply list_elem_of_In, in_seq. lia.
Qed.

Lemma customKnotsFor_grows_with_count_witness :
  ∃ curve,
    slot (cm_curves Sample.twoCurves) 0 = Some curve
    ∧ customKnotsFor curve 3 ⊆+ customKnotsFor curve 4
    ∧ (length (customKnotsFor curve 3) ≤ 1)%nat.
Proof.
  eexists. split; [reflexivity|].
  match goal with |- customKnotsFor ?c _ ⊆+ _ ∧ _ =>
    destruct (customKnotsFor_grows_with_count c 3 4) as [Hgrow Hbound]
  end.
  split.
  - apply Hgrow. lia.
  - apply Hbound.
    + apply (bool_decide_unpack _). by vm_compute.
    + apply Forall_forall. repeat constructor; simpl; lia.
Defined.

(** ** Looking a curve up by its graph curve *)

Lemma holdsGraphCurve_head entry rest graphCurveId :
  (entry ≫= c_graphCurve) ≫= (λ g, Some (gc_id g)) = Some graphCurveId
  ↔ Spec2.holdsGraphCurve (entry :: rest) 0 graphCurveId.
Proof.
  unfold Spec2.holdsGraphCurve, slot. simpl. split.
  - destruct entry as [curve|]; [|done]. simpl.
    destruct (c_graphCurve curve) as [g|] eqn:Hg; [|done]. simpl.
    intros [= <-]. by exists curve, g.
  - intros (curve & g & -> & Hg & <-). simpl. by rewrite Hg.
Qed.

Lemma findGraphCurveFrom_spec graphCurveId curves i :
  match findGraphCurveFrom graphCurveId curves i with
  | Some k =>
      ∃ j, k = (i + j)%nat
        ∧ Spec2.holdsGraphCurve curves j graphCurveId
        ∧ ∀ j', (j' < j)%nat → ¬ Spec2.holdsGraphCurve curves j' graphCurveId
  | None => ∀ j, ¬ Spec2.holdsGraphCurve curves j graphCurveId
  end.
Proof.
  revert i. induction curves as [|entry rest IH]; intros i; simpl.
  - intros j (curve & g & Hs & _). unfold slot in Hs. by rewrite lookup_nil in Hs.
  - case_bool_decide as Hhead.
    + exists 0%nat. split_and!; [lia| |lia]. by apply holdsGraphCurve_head.
    + specialize (IH (S i)).
      destruct (findGraphCurveFrom graphCurveId rest (S i)) as [k|].
      * destruct IH as (j & -> & Hj & Hleast). exists (S j). split_and!; [lia|done|].
        intros [|j'] Hlt; [by rewrite <- holdsGraphCurve_head|]. apply Hleast. lia.
      * intros [|j]; [by rewrite <- holdsGraphCurve_head|]. apply IH.
Qed.

(** [getCurveIdByGraphCurveId] returns the least index whose curve is drawn
    as the given graph curve, and [null] exactly when no curve is; when the
    ids agree with the indices, the number returned is the id of that
    curve. *)
Theorem getCurveIdByGraphCurveId_first_match (cm : CurveManager) (graphCurveId : string) :
  match getCurveIdByGraphCurveId cm graphCurveId with
  | Some i =>
      Spec2.holdsGraphCurve (cm_curves cm) i graphCurveId
      ∧ (∀ j, (j < i)%nat → ¬ Spec2.holdsGraphCurve (cm_curves cm) j graphCurveId)
      ∧ (Spec.identityInvariant (cm_curves cm) →
         c_id <$> slot (cm_curves cm) i = Some i)
  | None => ∀ j, ¬ Spec2.holdsGraphCurve (cm_curves cm) j graphCurveId
  end.
Proof.
  unfold getCurveIdByGraphCurveId.
  pose proof (findGraphCurveFrom_spec graphCurveId (cm_curves cm) 0) as Hspec.
  destruct (findGraphCurveFrom graphCurveId (cm_curves cm) 0) as [k|]; [|done].
  destruct Hspec as (j & -> & Hj & Hleast). split_and!; [done|done|].
  intros Hinv. destruct Hj as (curve & g & Hslot & _).
  change (0 + j)%nat with j. rewrite Hslot. simpl. f_equal.
  apply Hinv. by apply slot_Some_lookup.
Qed.

Lemma getCurveIdByGraphCurveId_first_match_witness :
  getCurveIdByGraphCurveId Sample.twoCurves "0" = Some 0%nat
  ∧ c_id <$> slot (cm_curves Sample.twoCurves) 0 = Some 0%nat.
Proof.
  pose proof (getCurveIdByGraphCurveId_first_match Sample.twoCurves "0") as Hspec.
  change (getCurveIdByGraphCurveId Sample.twoCurves "0") with (Some 0%nat) in Hspec.
  destruct Hspec as (_ & _ & Hid). split; [reflexivity|].
  apply Hid. intros i curve Hi.
  destruct i as [|[|i]]; simpl in Hi; [by injection Hi as <-..|done].
Defined.

(** ** Reading the detail state back *)

Lemma getCurveDetailState_ext cm cm' j :
  cm_curves cm = cm_curves cm' → getCurveDetailState cm j = getCurveDetailState cm' j.
Proof. intros Heq. unfold getCurveDetailState. by rewrite Heq. Qed.

(** [getCurveDetailState] reports what [setCurveDetailState] stored for a
    live curve and is unchanged for every other id; [toggleDetailVisibility]
    on a live curve inverts what it reports; for an id that names no curve
    it reports [false]. *)
Theorem getCurveDetailState_reads_back (cm : CurveManager) (id : nat) (detailShown : bool) :
  (∀ j, getCurveDetailState (setCurveDetailState cm id detailShown) j
        = if bool_decide (j = id ∧ is_Some (slot (cm_curves cm) id))
          then detailShown else getCurveDetailState cm j)
  ∧ (is_Some (slot (cm_curves cm) id) →
     getCurveDetailState (toggleDetailVisibility cm id) id
     = negb (getCurveDetailState cm id))
  ∧ (slot (cm_curves cm) id = None → getCurveDetailState cm id = false).
Proof.
  assert (∀ shown j,
            getCurveDetailState (setCurveDetailState cm id shown) j
            = if bool_decide (j = id ∧ is_Some (slot (cm_curves cm) id))
              then shown else getCurveDetailState cm j) as Hset.
  { intros shown j. unfold setCurveDetailState.
    destruct (slot (cm_curves cm) id) as [curve|] eqn:Hc.
    - assert (id < length (cm_curves cm))%nat as Hlen by (apply slot_live_lt; by eexists).
      rewrite bool_decide_eq_true_2 by done.
      rewrite (bool_decide_eq_true_2 (is_Some (Some curve))) by (by eexists).
      cbn [andb]. unfold getCurveDetailState.
      change (cm_curves (modifySlot cm id ?f)) with (alter (fmap f) id (cm_curves cm)).
      rewrite length_alter.
      destruct (decide (j = id)) as [->|Hne].
      + rewrite slot_alter_same, Hc. rewrite !bool_decide_eq_true_2; [done|by eauto|done].
      + rewrite slot_alter_ne by done.
        by rewrite (bool_decide_eq_false_2 (j = id ∧ _)) by (by intros [? _]).
    - rewrite (bool_decide_eq_false_2 (is_Some None)) by (by intros [? ?]).
      rewrite andb_false_r.
      by rewrite (bool_decide_eq_false_2 (j = id ∧ _)) by (intros [_ [? ?]]; done). }
  split_and!.
  - apply Hset.
  - intros [curve Hc]. unfold toggleDetailVisibility. rewrite Hc.
    cbn zeta.
    match goal with
    | |- getCurveDetailState (setCurveDetailState (addAction ?a cm) id ?b) id = _ =>
        rewrite (getCurveDetailState_ext (setCurveDetailState (addAction a cm) id b)
                   (setCurveDetailState cm id b))
          by (unfold setCurveDetailState; cbn [cm_curves addAction];
              by destruct (_ && _))
    end.
    rewrite Hset. rewrite bool_decide_eq_true_2 by eauto.
    unfold getCurveDetailState. rewrite Hc.
    rewrite bool_decide_eq_true_2; [done|]. apply slot_live_lt. by eexists.
  - intros Hc. unfold getCurveDetailState. rewrite Hc. by case_bool_decide.
Qed.

Lemma getCurveDetailState_reads_back_witness :
  getCurveDetailState (toggleDetailVisibility Sample.twoCurves 1) 1
  = negb (getCurveDetailState Sample.twoCurves 1).
Proof.
  destruct (getCurveDetailState_reads_back Sample.twoCurves 1 false) as (_ & Htoggle & _).
  apply Htoggle. by eexists.
Defined.

(** ** Operations on one curve *)






(** ** Restoring a saved graph *)

Lemma setCurveVisibility_end cm l c visible :
  cm_curves cm = l ++ [Some c] →
  cm_curves (setCurveVisibility cm (length l) visible)
  = l ++ [Some (setIsHidden c (negb visible))]
  ∧ cm_settings (setCurveVisibility cm (length l) visible) = cm_settings cm.
Proof.
  intros Hc. unfold setCurveVisibility. rewrite Hc, slot_app_end. split; [|done].
  change (cm_curves (modifySlot cm ?i ?f)) with (alter (fmap f) i (cm_curves cm)).
  rewrite Hc. apply alter_app_end.
Qed.

Lemma setCurveDetailState_end cm l c detailShown :
  cm_curves cm = l ++ [Some c] →
  cm_curves (setCurveDetailState cm (length l) detailShown)
  = l ++ [Some (setIsDetailShown c detailShown)]
  ∧ cm_settings (setCurveDetailState cm (length l) detailShown) = cm_settings cm.
Proof.
  intros Hc. unfold setCurveDetailState. rewrite Hc, slot_app_end.
  rewrite bool_decide_eq_true_2 by (rewrite length_app; simpl; lia).
  rewrite bool_decide_eq_true_2 by (by eexists). cbn [andb]. split; [|done].
  change (cm_curves (modifySlot cm ?i ?f)) with (alter (fmap f) i (cm_curves cm)).
  rewrite Hc. apply alter_app_end.
Qed.

Lemma restoreCurve_kept cm curveData graphCurve :
  isEmphasis curveData = false →
  cd_graphCurve curveData = Some graphCurve →
  nextCurveId (cm_settings cm) = length (cm_curves cm) →
  ∃ cm' curve,
    restoreCurve cm curveData = (cm', true)
    ∧ cm_curves cm' = cm_curves cm ++ [Some curve]
    ∧ c_id curve = length (cm_curves cm)
    ∧ Spec2.restored curveData curve
    ∧ nextCurveId (cm_settings cm') = S (length (cm_curves cm)).
Proof.
  intros Hkeep Hg Hnext. unfold restoreCurve. rewrite Hkeep, Hg, Hnext.
  set (cm0 := withSettings cm _).
  match goal with
  | |- context [addCurve cm0 ?d] => set (descriptor := d)
  end.
  assert (d_id descriptor = length (cm_curves cm0)) as Hid by done.
  destruct (addCurve_appended cm0 descriptor Hid) as (curve & _ & _ & Hadd & Hslot).
  destruct (addCurve_slot cm0 descriptor (or_intror Hid))
    as (curve' & Hslot' & Hcid & Htype & Hcolor & Hsize & _ & _ & Hgc & Heqs & Hpre & Hpts).
  rewrite Hslot in Hslot'. injection Hslot' as <-.
  assert (cm_settings (addCurve cm0 descriptor) = cm_settings cm0) as Hset by done.
  change (d_id descriptor) with (length (cm_curves cm)) in Hslot, Hcid.
  change (cm_curves cm0) with (cm_curves cm) in Hadd.
  set (cmA := addCurve cm0 descriptor) in *. clearbody cmA.
  rewrite Hslot.
  match goal with
  | |- context [setCurveDetailState (setCurveVisibility (modifySlot cmA ?i ?f) _ ?v) _ ?b] =>
      set (cmB := modifySlot cmA i f);
      set (cmC := setCurveVisibility cmB i v);
      set (cmD := setCurveDetailState cmC i b);
      assert (cm_curves cmB = alter (fmap f) i (cm_curves cmA)) as HB by reflexivity
  end.
  rewrite Hadd, alter_app_end in HB.
  destruct (setCurveVisibility_end cmB _ _ (negb (hiddenState curveData)) HB) as [HC HCs].
  fold cmC in HC, HCs.
  destruct (setCurveDetailState_end cmC _ _ (default false (cd_isDetailShown curveData)) HC)
    as [HD HDs].
  fold cmD in HD, HDs.
  eexists cmD, _. split; [reflexivity|]. split; [exact HD|].
  split; [exact Hcid|]. split.
  - unfold Spec2.restored. cbn. rewrite negb_involutive.
    rewrite Htype, Hcolor, Hsize, Hgc, Heqs, Hpre, Hpts. by split_and!.
  - rewrite HDs, HCs. unfold cmB. cbn [cm_settings modifySlot withCurves]. by rewrite Hset.
Qed.

Lemma restoreCurves_kept cm curves :
  nextCurveId (cm_settings cm) = length (cm_curves cm) →
  (∀ curveData, curveData ∈ curves → isEmphasis curveData = false →
                is_Some (cd_graphCurve curveData)) →
  ∃ cm' added,
    restoreCurves cm curves = (cm', true)
    ∧ cm_curves cm' = cm_curves cm ++ added
    ∧ nextCurveId (cm_settings cm') = length (cm_curves cm')
    ∧ Forall2 (λ curveData entry, ∃ curve, entry = Some curve ∧ Spec2.restored curveData curve)
        (filter (λ curveData, isEmphasis curveData = false) curves) added
    ∧ (∀ k curve, added !! k = Some (Some curve) →
                  c_id curve = (length (cm_curves cm) + k)%nat).
Proof.
  revert cm. induction curves as [|curveData rest IH]; intros cm Hnext Hgraph.
  - exists cm, []. rewrite app_nil_r. split_and!; done.
  - simpl. rewrite filter_cons. destruct (isEmphasis curveData) eqn:Hkeep.
    + replace (restoreCurve cm curveData) with (cm, true)
        by (unfold restoreCurve; by rewrite Hkeep).
      destruct (IH cm Hnext) as (cm' & added & Hrun & Hc & Hn & Hall & Hids).
      { intros cd Hcd. apply Hgraph. by right. }
      exists cm', added. by destruct (decide (true = false)).
    + destruct (Hgraph curveData) as [graphCurve Hg]; [by left|done|].
      destruct (restoreCurve_kept cm curveData graphCurve Hkeep Hg Hnext)
        as (cm1 & curve & -> & Hc1 & Hid1 & Hres1 & Hn1).
      destruct (IH cm1) as (cm' & added & Hrun & Hc & Hn & Hall & Hids).
      { rewrite Hn1, Hc1, length_app. simpl. lia. }
      { intros cd Hcd. apply Hgraph. by right. }
      exists cm', (Some curve :: added).
      destruct (decide (false = false)); [|done]. split_and!.
      * done.
      * by rewrite Hc, Hc1, <- (assoc_L (++)).
      * done.
      * constructor; [by exists curve|done].
      * intros [|k] c Hk.
        -- injection Hk as <-. lia.
        -- rewrite (Hids k c Hk), Hc1, length_app. simpl. lia.
Qed.

(** Restoring a saved graph whose entries all carry a graph curve succeeds
    and rebuilds the store from scratch: one curve per entry that is not an
    emphasis curve, in the order of the file, with the colour, size,
    visibility, detail state, equations and knots of its entry (or their
    defaults); the ids are the indices and [settings.nextCurveId] is the
    number of curves restored. *)
Theorem loadGraphFromJSON_restores (cm : CurveManager) (curves : list CurveData) :
  let kept := filter (λ curveData, isEmphasis curveData = false) curves in
  let out := loadGraphFromJSON cm (Some (mkLoadResult true curves)) in
  (∀ curveData, curveData ∈ kept → is_Some (cd_graphCurve curveData)) →
  out.2 = true
  ∧ Forall2 (λ curveData entry, ∃ curve, entry = Some curve ∧ Spec2.restored curveData curve)
      kept (cm_curves out.1)
  ∧ Spec.identityInvariant (cm_curves out.1)
  ∧ nextCurveId (cm_settings out.1) = length kept
  ∧ Spec2.freshAbove out.1.
Proof.
  intros kept out Hgraph. unfold out, loadGraphFromJSON. cbn [lr_success lr_curves].
  set (cm0 := withSettings (withCurves cm []) _).
  destruct (restoreCurves_kept cm0 curves) as (cm' & added & -> & Hc & Hn & Hall & Hids).
  { done. }
  { intros cd Hcd Hkeep. apply Hgraph. by apply list_elem_of_filter. }
  cbn [fst snd updateCurveList cm_curves cm_settings withCurves].
  change (cm_curves cm0) with (@nil (option Curve)) in Hc, Hids.
  rewrite app_nil_l in Hc. rewrite Hc in *. split_and!.
  - done.
  - unfold relist. apply Forall2_fmap_r.
    eapply Forall2_impl; [exact Hall|]. simpl.
    intros curveData entry (curve & -> & Hres). exists (listCurve curve). split; [done|].
    destruct (listCurve_knotCount curve) as [k ->]. exact Hres.
  - apply invariant_relist. intros i curve Hi. by apply Hids.
  - rewrite Hn. symmetry. by eapply Forall2_length.
  - intros i Hi. apply slot_past_end.
    change (cm_curves (updateCurveList cm')) with (relist (cm_curves cm')).
    change (cm_settings (updateCurveList cm')) with (cm_settings cm') in Hi.
    rewrite relist_length, Hc. lia.
Qed.

Lemma loadGraphFromJSON_restores_witness :
  let saved :=
    [mkCurveData (Some "0"%string) None (Some "#f00"%string) None None None (Some true) None
       None (Some Sample.graphHandle) None None None None;
     mkCurveData (Some "emphasis-0"%string) None None None None None None None None None
       None None None None] in
  let out := loadGraphFromJSON Sample.twoCurves (Some (mkLoadResult true saved)) in
  out.2 = true ∧ nextCurveId (cm_settings out.1) = 1%nat.
Proof.
  intros saved out.
  destruct (loadGraphFromJSON_restores Sample.twoCurves saved) as (Hok & _ & _ & Hnext & _).
  - apply Forall_forall. repeat constructor. by eexists.
  - split; [exact Hok|exact Hnext].
Defined.

(** ** Export to Desmos *)

Lemma lacks_pretty_N_go x s :
  Spec2.lacks "_"%char s → Spec2.lacks "_"%char (pretty_N_go x s).
Proof.
  revert s. induction (N.lt_wf_0 x) as [x _ IH]; intros s Hs.
  assert (x = 0 ∨ 0 < x)%N as [->|Hpos] by lia.
  - by rewrite pretty_N_go_0.
  - rewrite pretty_N_go_step by done. apply IH.
    { by apply N.div_lt. }
    split; [|done]. unfold pretty_N_char. by repeat case_match.
Qed.

Lemma lacks_pretty (n : nat) : Spec2.lacks "_"%char (pretty n).
Proof.
  unfold pretty, pretty_nat, pretty, pretty_N.
  case_decide; [by split|]. by apply lacks_pretty_N_go.
Qed.

Lemma append_split_inj c s1 s2 t1 t2 :
  Spec2.lacks c s1 → Spec2.lacks c s2 →
  s1 +:+ String c t1 = s2 +:+ String c t2 → s1 = s2 ∧ t1 = t2.
Proof.
  revert s2. induction s1 as [|a s1 IH]; intros [|b s2] H1 H2 Heq; simpl in *.
  - by injection Heq.
  - injection Heq as <- _. by destruct H2.
  - injection Heq as -> _. by destruct H1.
  - injection Heq as -> Heq. destruct H1 as [_ H1], H2 as [_ H2].
    destruct (IH s2 H1 H2 Heq) as [-> ->]. done.
Qed.

Lemma expressionId_inj curve curve' index index' :
  Desmos.expressionId curve index = Desmos.expressionId curve' index' →
  x_id curve = x_id curve' ∧ index = index'.
Proof.
  unfold Desmos.expressionId. intros Heq.
  apply (inj (String.append "expr_")) in Heq.
  apply append_split_inj in Heq as [Hid Hindex]; [|apply lacks_pretty..].
  split; by apply (inj pretty).
Qed.

Lemma folderId_inj curve curve' :
  Desmos.folderId curve = Desmos.folderId curve' → x_id curve = x_id curve'.
Proof.
  unfold Desmos.folderId. intros Heq.
  apply (inj (String.append "folder_")) in Heq. by apply (inj pretty).
Qed.

Lemma folderId_not_expressionId curve curve' index :
  Desmos.folderId curve ≠ Desmos.expressionId curve' index.
Proof. unfold Desmos.folderId, Desmos.expressionId. intros Heq. discriminate Heq. Qed.

Lemma foldl_push {A B} (f : A → list B) (l : list A) (acc : list B) :
  foldl (λ acc x, acc ++ f x) acc l = acc ++ (l ≫= f).
Proof.
  revert acc. induction l as [|x l IH]; intros acc; csimpl.
  - by rewrite app_nil_r.
  - by rewrite IH, (assoc_L (++)).
Qed.

Lemma exported_visible curves curve :
  curve ∈ Spec2.exported curves → x_isHidden curve = false.
Proof.
  unfold Spec2.exported. rewrite list_elem_of_omap. intros ([c|] & _ & Hc); [|done].
  simpl in Hc. destruct (x_isHidden c) eqn:Hh; [done|]. by injection Hc as <-.
Qed.

Lemma exportToDesmosJSON_blocks numberToString curves :
  ds_expressions (exportToDesmosJSON numberToString curves)
  = Spec2.exported curves ≫= (λ curve, Desmos.pushed numberToString (Some curve)).
Proof.
  unfold exportToDesmosJSON. cbn [ds_expressions]. rewrite foldl_push, app_nil_l.
  induction curves as [|[curve|] rest IH]; csimpl; [done| |done].
  unfold Spec2.exported in *. csimpl.
  destruct (x_isHidden curve) eqn:Hh; csimpl; rewrite ?Hh; [done|]. by rewrite IH.
Qed.

Lemma expressionsFrom_items numberToString curve index equations item :
  item ∈ Desmos.expressionsFrom numberToString curve index equations →
  ∃ j latex color width,
    (index ≤ j)%nat
    ∧ item = DesmosExpression (Desmos.expressionId curve j) (Desmos.folderId curve)
               latex color "SOLID" width.
Proof.
  revert index. induction equations as [|eq rest IH]; intros index; simpl; [by inv 1|].
  assert (item ∈ Desmos.expressionsFrom numberToString curve (S index) rest →
          ∃ j latex color width,
            (index ≤ j)%nat
            ∧ item = DesmosExpression (Desmos.expressionId curve j) (Desmos.folderId curve)
                       latex color "SOLID" width) as Hrest.
  { intros Hin. destruct (IH _ Hin) as (j & latex & color & width & Hj & ->).
    exists j, latex, color, width. split; [lia|done]. }
  destruct (Desmos.expression numberToString curve index eq) as [first|] eqn:Hfirst;
    [|done].
  rewrite elem_of_cons. intros [->|Hin]; [|by apply Hrest].
  unfold Desmos.expression in Hfirst.
  destruct (Dyn.orStr (eq_latex eq) (eq_formula eq)) as [latex|]; [|done].
  case_bool_decide; [done|]. injection Hfirst as <-.
  eexists index, _, _, _. split; [lia|reflexivity].
Qed.

Lemma expressionsFrom_ids_distinct numberToString curve index equations :
  NoDup (Spec2.itemId <$> Desmos.expressionsFrom numberToString curve index equations).
Proof.
  revert index. induction equations as [|eq rest IH]; intros index; simpl; [constructor|].
  destruct (Desmos.expression numberToString curve index eq) as [first|] eqn:Hfirst;
    [|apply IH].
  csimpl. apply NoDup_cons. split; [|apply IH].
  rewrite list_elem_of_fmap. intros (item & Hid & Hin).
  apply expressionsFrom_items in Hin as (j & ? & ? & ? & Hj & ->).
  assert (first ∈ Desmos.expressionsFrom numberToString curve index (eq :: rest)) as Hhead
    by (simpl; rewrite Hfirst; by left).
  unfold Desmos.expression in Hfirst.
  destruct (Dyn.orStr (eq_latex eq) (eq_formula eq)) as [latex|]; [|done].
  case_bool_decide; [done|]. injection Hfirst as <-. simpl in Hid.
  apply expressionId_inj in Hid as [_ Hid]. lia.
Qed.

Lemma pushed_items numberToString curve item :
  item ∈ Desmos.pushed numberToString (Some curve) →
  x_isHidden curve = false
  ∧ (item = Desmos.folder curve
     ∨ ∃ j latex color width,
         item = DesmosExpression (Desmos.expressionId curve j) (Desmos.folderId curve)
                  latex color "SOLID" width).
Proof.
  unfold Desmos.pushed. destruct (x_isHidden curve); [by inv 1|].
  rewrite elem_of_cons. intros [->|Hin]; [by split; [|left]|]. split; [done|]. right.
  destruct (x_latexEquations curve) as [equations|]; [|by inv Hin].
  apply expressionsFrom_items in Hin as (j & latex & color & width & _ & ->). eauto.
Qed.

Lemma fmap_bind_list {A B C} (f : B → C) (g : A → list B) (l : list A) :
  f <$> (l ≫= g) = l ≫= (λ x, f <$> g x).
Proof. induction l as [|x l IH]; [done|]. by rewrite !bind_cons, fmap_app, IH. Qed.

Lemma NoDup_fmap_elem_inj {A B} (f : A → B) (l : list A) x y :
  NoDup (f <$> l) → x ∈ l → y ∈ l → f x = f y → x = y.
Proof.
  induction l as [|a l IH]; csimpl; [by inv 2|].
  rewrite NoDup_cons, !elem_of_cons, list_elem_of_fmap.
  intros [Hnotin Hdistinct] [->|Hx] [->|Hy] Heq; [done|..].
  - destruct Hnotin. by exists y.
  - destruct Hnotin. by exists x.
  - by apply IH.
Qed.

Lemma expressionsFrom_no_folder numberToString curve index equations :
  filter (λ item, Spec2.isFolder item = true)
    (Desmos.expressionsFrom numberToString curve index equations) = [].
Proof.
  revert index. induction equations as [|eq rest IH]; intros index; simpl; [done|].
  destruct (Desmos.expression numberToString curve index eq) as [first|] eqn:Hfirst;
    [|apply IH].
  unfold Desmos.expression in Hfirst.
  destruct (Dyn.orStr (eq_latex eq) (eq_formula eq)) as [latex|]; [|done].
  case_bool_decide; [done|]. injection Hfirst as <-.
  rewrite filter_cons_False by done. apply IH.
Qed.

(** The list exported to Desmos holds one folder per curve that is live
    and not hidden; every expression names a folder that is in the list;
    and when those curves have pairwise distinct ids, so have the entries
    of the list, folders and expressions together. *)
Theorem exportToDesmosJSON_well_formed (numberToString : number → string)
    (curves : list (option ExportedCurve)) :
  let items := ds_expressions (exportToDesmosJSON numberToString curves) in
  length (filter (λ item, Spec2.isFolder item = true) items) = length (Spec2.exported curves)
  ∧ (∀ id folderId latex color lineStyle lineWidth,
       DesmosExpression id folderId latex color lineStyle lineWidth ∈ items →
       ∃ title, DesmosFolder folderId title true false ∈ items)
  ∧ (NoDup (x_id <$> Spec2.exported curves) → NoDup (Spec2.itemId <$> items)).
Proof.
  intros items. unfold items. rewrite exportToDesmosJSON_blocks.
  pose proof (exported_visible curves) as Hvisible.
  set (shown := Spec2.exported curves) in *. clearbody shown.
  split_and!.
  - induction shown as [|curve rest IH]; [done|]. rewrite bind_cons.
    rewrite filter_app, length_app, IH by (intros c Hc; apply Hvisible; by right).
    rewrite length_cons. f_equal. unfold Desmos.pushed. rewrite Hvisible by (by left).
    rewrite filter_cons_True by done. rewrite length_cons. f_equal.
    destruct (x_latexEquations curve); [|done].
    by rewrite expressionsFrom_no_folder.
  - intros id folderId latex color lineStyle lineWidth Hin.
    apply list_elem_of_bind in Hin as (curve & Hin & Hcurve).
    apply pushed_items in Hin as [Hshown [Hfolder|(j & ? & ? & ? & Hexpr)]];
      [discriminate Hfolder|].
    injection Hexpr as _ -> _ _ _ _. eexists.
    apply list_elem_of_bind. exists curve. split; [|done].
    unfold Desmos.pushed. rewrite Hshown. left.
  - intros Hdistinct. rewrite fmap_bind_list.
    apply NoDup_bind.
    + intros c1 c2 y Hc1 Hc2 Hy1 Hy2.
      apply (NoDup_fmap_elem_inj x_id shown); [done..|].
      apply list_elem_of_fmap in Hy1 as (item1 & -> & Hy1).
      apply list_elem_of_fmap in Hy2 as (item2 & Heq & Hy2).
      apply pushed_items in Hy1 as [_ [->|(j1 & ? & ? & ? & ->)]];
        apply pushed_items in Hy2 as [_ [->|(j2 & ? & ? & ? & ->)]]; simpl in Heq.
      * by apply folderId_inj.
      * by destruct (folderId_not_expressionId c1 c2 j2).
      * by destruct (folderId_not_expressionId c2 c1 j1).
      * by apply expressionId_inj in Heq as [? _].
    + intros c Hc. unfold Desmos.pushed. rewrite (Hvisible c Hc). csimpl.
      apply NoDup_cons. split.
      * rewrite list_elem_of_fmap. intros (item & Hid & Hin).
        destruct (x_latexEquations c); [|by inv Hin].
        apply expressionsFrom_items in Hin as (j & ? & ? & ? & _ & ->).
        by destruct (folderId_not_expressionId c c j).
      * destruct (x_latexEquations c); [|constructor].
        apply expressionsFrom_ids_distinct.
    + by eapply NoDup_fmap_1.
Qed.

Lemma exportToDesmosJSON_well_formed_witness :
  let line := mkEquation (Some "y=x"%string) None None in
  let arc :=
    mkEquation None (Some "y=x^2"%string)
      (Some (mkEquationDomain (Some "x_range"%string) "0" "1")) in
  let curves :=
    [Some (mkExportedCurve 0 (Some "linear"%string) None None false (Some [line; arc]));
     None;
     Some (mkExportedCurve 2 None None None true (Some [line]));
     Some (mkExportedCurve 3 None (Some "#f00"%string) None false (Some [arc]))] in
  NoDup (Spec2.itemId <$> ds_expressions (exportToDesmosJSON (λ _, "2.5"%string) curves)).
Proof.
  intros line arc curves.
  destruct (exportToDesmosJSON_well_formed (λ _, "2.5"%string) curves) as (_ & _ & Hdistinct).
  apply Hdistinct. apply (bool_decide_unpack _). by vm_compute.
Defined.

(** A visible curve with two equations, the second restricted to a
    domain: its folder, then its expressions. *)
Example exportToDesmosJSON_sample :
  ds_expressions
    (exportToDesmosJSON (λ _, "2.5"%string)
       [None;
        Some (mkExportedCurve 1 (Some "quadratic"%string) None None false
                (Some [mkEquation (Some "y=x"%string) None None;
                       mkEquation None None None;
                       mkEquation None (Some "y=x^2"%string)
                         (Some (mkEquationDomain (Some "x_range"%string) "0" "1"))]))])
  = [DesmosFolder "folder_1" "Curve 1 (quadratic)" true false;
     DesmosExpression "expr_1_0" "folder_1" "y=x" "#000000" "SOLID" "2.5";
     DesmosExpression "expr_1_2" "folder_1" "y=x^2\ \left\{0<x<1\right\}" "#000000" "SOLID"
       "2.5"].
Proof. reflexivity. Qed.

(** ** The eraser *)







(** ** The selection after a reordering *)


